(** * sam logs: the command driver and the streaming engine it drives

    Part I embeds [do_cli] of [samcli/commands/logs/command.py]: the
    collaborators it imports are the fields of a record, every call it makes
    is logged in order, and the properties of the command are read off that
    log.  Part II holds the streaming engine, whose code lives outside the
    two files at hand. *)

From Stdlib Require Import String Ascii List ZArith Bool Lia.
From ExtLib Require Import Structures.Monad Structures.MonadState.
From ExtLib Require Import Data.Monads.StateMonad.
From Equations Require Import Equations.
From Equations.Prop Require Import Logic.
From Stdlib Require Import Sorting.Sorted Sorting.Permutation.
From Stdlib Require Structures.OrderedTypeEx.
From Stdlib Require DecimalString.
Import ListNotations.
Import MonadNotation.
Local Open Scope monad_scope.
Local Open Scope string_scope.

(** ** Python values *)

Module Py.

(** Truth value of an optional string: [None] and [""] are falsy. *)
Definition truthy_str (s : option string) : bool :=
  match s with
  | None => false
  | Some s => negb (s =? "")
  end.

(** Truth value of a tuple or list: falsy exactly when empty. *)
Definition truthy_seq {A} (l : list A) : bool :=
  match l with
  | [] => false
  | _ :: _ => true
  end.

(** [str(x)] inside an f-string, for an optional string. *)
Definition str (s : option string) : string :=
  match s with
  | None => "None"
  | Some s => s
  end.

End Py.

(** ** Part I: [do_cli] *)

Module Logs.

(** What [do_cli] imports.  None of these is defined in command.py, so each
    is a field: the types of the objects that flow through, and one function
    per callable.  A call that raises leaves [do_cli] at that point; the
    record describes the calls that return. *)
Record Collaborators : Type := {
  datetime : Type;
  OutputOption : Type;
  BotoClientProvider : Type;
  BotoResourceProvider : Type;
  ResourcePhysicalIdResolver : Type;
  ResourceInformation : Type;
  Puller : Type;
  (* samcli.commands.logs.logs_context.parse_time *)
  parse_time : option string -> string -> option datetime;
  (* datetime.utcnow *)
  utcnow : datetime;
  (* OutputOption.text and the enum lookup OutputOption(value) *)
  OutputOption_text : OutputOption;
  OutputOption_of : string -> OutputOption;
  get_boto_client_provider_with_config :
    option string -> option string -> BotoClientProvider;
  get_boto_resource_provider_with_config :
    option string -> option string -> BotoResourceProvider;
  new_ResourcePhysicalIdResolver :
    BotoResourceProvider -> BotoClientProvider -> option string ->
    list string -> ResourcePhysicalIdResolver;
  get_resource_information :
    ResourcePhysicalIdResolver -> bool -> list ResourceInformation;
  generate_puller :
    BotoClientProvider -> list ResourceInformation -> option string ->
    list string -> OutputOption -> bool -> Puller;
  generate_next_command_recommendation : list (string * string) -> string
}.

(** The arguments of [do_cli], in its order. *)
Record Args : Type := {
  names : list string;
  stack_name : option string;
  filter_pattern : option string;
  tailing : bool;
  include_tracing : bool;
  start_time : option string;
  end_time : option string;
  cw_log_groups : list string;
  output : option string;
  region : option string;
  profile : option string
}.

Section Driver.

Variable W : Collaborators.

(** One entry per call that leaves [do_cli]. *)
Inductive Call : Type :=
| click_echo (msg : string)
| call_parse_time (time_str : option string) (property_name : string)
| call_utcnow
| call_client_provider (region profile : option string)
| call_resource_provider (region profile : option string)
| call_new_resolver (rp : BotoResourceProvider W) (cp : BotoClientProvider W)
    (stack_name : option string) (names : list string)
| call_get_resource_information (r : ResourcePhysicalIdResolver W)
    (fetch_all_when_no_resource_name_given : bool)
| call_generate_puller (cp : BotoClientProvider W)
    (infos : list (ResourceInformation W)) (filter_pattern : option string)
    (cw_log_groups : list string) (output : OutputOption W)
    (include_tracing : bool)
| call_tail (p : Puller W) (start : option (datetime W))
    (filter_pattern : option string)
| call_load_time_period (p : Puller W) (start : option (datetime W))
    (stop : datetime W) (filter_pattern : option string)
| call_recommendation (cmds : list (string * string))
| click_secho (msg : string) (fg : string).

(** A computation of [do_cli]: it threads the log of calls made so far. *)
Definition Run : Type -> Type := state (list Call).

(** Appends one call to the log. *)
Definition emit (c : Call) : Run unit :=
  tr <- get ;; put (tr ++ [c])%list.

(** A logged call to a collaborator, with the value it returns. *)
Definition invoke {A} (c : Call) (r : A) : Run A :=
  emit c ;; ret r.

(** The message of the [click.echo] at the top of [do_cli]. *)
Definition hint : string :=
  "You can now use 'sam logs' without --name parameter, " ++
  "which will pull the logs from all supported resources in your stack.".

Definition do_cli (a : Args) : Run unit :=
  (if Py.truthy_seq (names a) && (length (names a) <=? 1)%nat
   then emit (click_echo hint)
   else ret tt) ;;
  sanitized_start_time <-
    invoke (call_parse_time (start_time a) "start-time")
           (parse_time W (start_time a) "start-time") ;;
  parsed_end <-
    invoke (call_parse_time (end_time a) "end-time")
           (parse_time W (end_time a) "end-time") ;;
  sanitized_end_time <-
    match parsed_end with
    | Some d => ret d
    | None => invoke call_utcnow (utcnow W)
    end ;;
  boto_client_provider <-
    invoke (call_client_provider (region a) (profile a))
           (get_boto_client_provider_with_config W (region a) (profile a)) ;;
  boto_resource_provider <-
    invoke (call_resource_provider (region a) (profile a))
           (get_boto_resource_provider_with_config W (region a) (profile a)) ;;
  resource_logical_id_resolver <-
    invoke (call_new_resolver boto_resource_provider boto_client_provider
              (stack_name a) (names a))
           (new_ResourcePhysicalIdResolver W boto_resource_provider
              boto_client_provider (stack_name a) (names a)) ;;
  let fetch_all_when_no_resource_name_given :=
    negb (Py.truthy_seq (cw_log_groups a)) in
  infos <-
    invoke (call_get_resource_information resource_logical_id_resolver
              fetch_all_when_no_resource_name_given)
           (get_resource_information W resource_logical_id_resolver
              fetch_all_when_no_resource_name_given) ;;
  let output_option :=
    match output a with
    | Some value =>
        if Py.truthy_str (Some value)
        then OutputOption_of W value
        else OutputOption_text W
    | None => OutputOption_text W
    end in
  puller <-
    invoke (call_generate_puller boto_client_provider infos
              (filter_pattern a) (cw_log_groups a) output_option
              (include_tracing a))
           (generate_puller W boto_client_provider infos (filter_pattern a)
              (cw_log_groups a) output_option (include_tracing a)) ;;
  (if tailing a
   then emit (call_tail puller sanitized_start_time (filter_pattern a))
   else emit (call_load_time_period puller sanitized_start_time
                sanitized_end_time (filter_pattern a))) ;;
  (if tailing a
   then
     let cmds :=
       [ ("Tail Logs from All Support Resources and X-Ray",
          "sam logs --stack-name " ++ Py.str (stack_name a) ++
          " --tail --include-traces");
         ("Tail X-Ray Information", "sam traces --tail") ] in
     command_suggestions <-
       invoke (call_recommendation cmds)
              (generate_next_command_recommendation W cmds) ;;
     emit (click_secho command_suggestions "yellow")
   else ret tt).

(** The calls of one invocation, in order. *)
Definition trace (a : Args) : list Call :=
  execState (do_cli a) [].

(** *** Reading the log *)

(** The messages printed with [click.echo]. *)
Definition echoed (tr : list Call) : list string :=
  flat_map (fun c => match c with click_echo m => [m] | _ => [] end) tr.

(** The calls that start streaming: [tail] and [load_time_period]. *)
Definition is_mode_call (c : Call) : bool :=
  match c with
  | call_tail _ _ _ | call_load_time_period _ _ _ _ => true
  | _ => false
  end.

Definition mode_calls (tr : list Call) : list Call := filter is_mode_call tr.

(** The resolver queries, with the discovery flag of each. *)
Definition resolver_requests (tr : list Call)
  : list (ResourcePhysicalIdResolver W * bool) :=
  flat_map (fun c => match c with
                     | call_get_resource_information r b => [(r, b)]
                     | _ => []
                     end) tr.

(** What each puller construction was given to pull from: the resolved
    resources and the raw log groups. *)
Definition sources_requested (tr : list Call)
  : list (list (ResourceInformation W) * list string) :=
  flat_map (fun c => match c with
                     | call_generate_puller _ infos _ cw _ _ => [(infos, cw)]
                     | _ => []
                     end) tr.

(** The output option of each puller construction. *)
Definition outputs_requested (tr : list Call) : list (OutputOption W) :=
  flat_map (fun c => match c with
                     | call_generate_puller _ _ _ _ o _ => [o]
                     | _ => []
                     end) tr.

(** The pullers the constructions return. *)
Definition constructed (tr : list Call) : list (Puller W) :=
  flat_map (fun c => match c with
                     | call_generate_puller cp infos f cw o t =>
                         [generate_puller W cp infos f cw o t]
                     | _ => []
                     end) tr.

(** Every filter pattern handed to a collaborator, in call order. *)
Definition filters_passed (tr : list Call) : list (option string) :=
  flat_map (fun c => match c with
                     | call_generate_puller _ _ f _ _ _ => [f]
                     | call_tail _ _ f => [f]
                     | call_load_time_period _ _ _ f => [f]
                     | _ => []
                     end) tr.

(** The end bounds handed to [load_time_period]. *)
Definition window_ends (tr : list Call) : list (datetime W) :=
  flat_map (fun c => match c with
                     | call_load_time_period _ _ stop _ => [stop]
                     | _ => []
                     end) tr.

End Driver.

Definition set_end_time (a : Args) (e : option string) : Args :=
  {| names := names a;
     stack_name := stack_name a;
     filter_pattern := filter_pattern a;
     tailing := tailing a;
     include_tracing := include_tracing a;
     start_time := start_time a;
     end_time := e;
     cw_log_groups := cw_log_groups a;
     output := output a;
     region := region a;
     profile := profile a |}.

End Logs.

(** ** Part II: the streaming engine

    The pullers and the multiplexer behind [generate_puller], [tail] and
    [load_time_period] are not in command.py.  Their data model and
    operations are taken from the specification, sections 3 and 4. *)

Module Order.

(** Lexicographic composition of two comparisons. *)
Definition lex (c1 c2 : comparison) : comparison :=
  match c1 with
  | Eq => c2
  | _ => c1
  end.

(** "Less than or equal", read off a comparison. *)
Definition not_gt (c : comparison) : bool :=
  match c with
  | Gt => false
  | _ => true
  end.

End Order.

Module Engine.

Import Order.

(** Modelled from the spec: the ordering key of section 3, the pair
    (timestamp, de-dup key), whose implementation is not in the source
    files.  Timestamps are milliseconds. *)
Definition OrderingKey : Type := Z * string.

(** Modelled from the spec: comparison of ordering keys, the timestamp
    first and the de-dup key to break ties (section 3). *)
Definition key_compare (k1 k2 : OrderingKey) : comparison :=
  lex (fst k1 ?= fst k2)%Z (String.compare (snd k1) (snd k2)).

(** Modelled from the spec: "ordering key less than or equal" of sections
    4.2 and 8. *)
Definition key_leb (k1 k2 : OrderingKey) : bool := not_gt (key_compare k1 k2).

(** Modelled from the spec: the LogEvent record of section 3 (source
    identifier, timestamp, message payload, de-duplication key); the class
    that carries events is not in the source files. *)
Record LogEvent : Type := {
  source : string;
  timestamp : Z;
  message : string;
  dedup_key : string
}.

(** Modelled from the spec: the ordering key of an event (section 3). *)
Definition ordering_key (e : LogEvent) : OrderingKey :=
  (timestamp e, dedup_key e).

(** Modelled from the spec: the tie-break rule of section 4.4, which orders
    by timestamp, then de-dup key, then source identifier; the merge is not
    in the source files. *)
Definition MergeKey : Type := OrderingKey * string.

(** Modelled from the spec: what the tie-break rule of section 4.4 compares,
    the ordering key and then the source identifier. *)
Definition merge_key (e : LogEvent) : MergeKey := (ordering_key e, source e).

(** Modelled from the spec: the comparison of the tie-break rule of
    section 4.4. *)
Definition merge_compare (m1 m2 : MergeKey) : comparison :=
  lex (key_compare (fst m1) (fst m2)) (String.compare (snd m1) (snd m2)).

(** Modelled from the spec: whether the merge takes [e1] no later than
    [e2] (section 4.4). *)
Definition merge_leb (e1 e2 : LogEvent) : bool :=
  not_gt (merge_compare (merge_key e1) (merge_key e2)).

(** Modelled from the spec: "sorted by ordering key" and "sorted under the
    tie-break rule" of section 8, as relations on events; no comparison of
    events is in the source files. *)
Definition key_le (e1 e2 : LogEvent) : Prop :=
  key_leb (ordering_key e1) (ordering_key e2) = true.

(** Modelled from the spec: the order of the tie-break rule of section 4.4,
    as a relation on events. *)
Definition merge_le (e1 e2 : LogEvent) : Prop := merge_leb e1 e2 = true.

(** Modelled from the spec: one step of the k-way merge of section 4.4,
    which is not in the source files.  Among the heads of the per-source
    sequences it takes the least one under the tie-break rule, the earlier
    sequence winning when two heads compare equal, and returns it with the
    sequences that remain. *)
Fixpoint select (srcs : list (list LogEvent))
  : option (LogEvent * list (list LogEvent)) :=
  match srcs with
  | [] => None
  | [] :: rest =>
      match select rest with
      | None => None
      | Some (e, rest') => Some (e, [] :: rest')
      end
  | (e :: es) :: rest =>
      match select rest with
      | None => Some (e, es :: rest)
      | Some (e', rest') =>
          if merge_leb e e'
          then Some (e, es :: rest)
          else Some (e', (e :: es) :: rest')
      end
  end.

(** The events still to be merged; the measure the merge terminates on. *)
Definition pending (srcs : list (list LogEvent)) : nat :=
  length (concat srcs).

Lemma select_pending srcs e srcs' :
  select srcs = Some (e, srcs') -> pending srcs = S (pending srcs').
Proof.
  unfold pending. revert e srcs'.
  induction srcs as [|[|x xs] rest IH]; intros e srcs' H; simpl in H.
  - discriminate.
  - destruct (select rest) as [[e1 r1]|]; [|discriminate].
    injection H as <- <-. simpl. eapply IH; reflexivity.
  - destruct (select rest) as [[e1 r1]|].
    + destruct (merge_leb x e1); injection H as <- <-; simpl.
      * reflexivity.
      * pose proof (IH _ _ eq_refl) as IH'.
        rewrite !length_app in *. simpl. lia.
    + injection H as <- <-. reflexivity.
Qed.

(** Modelled from the spec: the k-way merge of section 4.4, which is not
    in the source files.  It emits the selected head and goes on with what
    remains, until every sequence is exhausted. *)
Equations? kmerge (srcs : list (list LogEvent)) : list LogEvent
  by wf (pending srcs) lt :=
  kmerge srcs with inspect (select srcs) := {
    | exist _ (Some (e, srcs')) Hsel => e :: kmerge srcs'
    | exist _ None _ => []
  }.
Proof. rewrite (select_pending _ _ _ Hsel). lia. Qed.

(** Modelled from the spec: the "stable permutation" of section 8, which
    no source file defines.  The output is an interleaving of the sequences,
    each taken front to back. *)
Inductive Interleaving : list (list LogEvent) -> list LogEvent -> Prop :=
| interleaving_done srcs :
    Forall (fun l => l = []) srcs -> Interleaving srcs []
| interleaving_step pre e es post out :
    Interleaving (pre ++ es :: post) out ->
    Interleaving (pre ++ (e :: es) :: post) (e :: out).

(** Modelled from the spec: a SourcePuller streams the events of exactly
    one physical source (section 4.2); the pullers are not in the source
    files.  Every event of the sequence names the source [s]. *)
Definition from_source (s : string) (l : list LogEvent) : Prop :=
  Forall (fun e => source e = s) l.

(** Modelled from the spec: one puller per physical source, duplicates
    removed before the pullers are built (section 4.1); the multiplexer is
    not in the source files.  The sequences belong, in order, to pairwise
    distinct source identifiers. *)
Definition per_source (srcs : list (list LogEvent)) : Prop :=
  exists ids, NoDup ids /\ Forall2 from_source ids srcs.

(** Modelled from the spec: the record GetEvents of section 6 returns,
    (timestamp, message, dedupKey); the query service is an external
    collaborator. *)
Record RawEvent : Type := {
  raw_timestamp : Z;
  raw_message : string;
  raw_dedup_key : string
}.

(** Modelled from the spec: the TimeWindow of section 3, start inclusive,
    end exclusive or absent when the end is "now". *)
Record TimeWindow : Type := {
  window_start : Z;
  window_end : option Z
}.

(** Modelled from the spec: membership in a TimeWindow, start inclusive and
    end exclusive (section 3). *)
Definition in_window (w : TimeWindow) (r : RawEvent) : bool :=
  (window_start w <=? raw_timestamp r)%Z &&
  match window_end w with
  | Some stop => (raw_timestamp r <? stop)%Z
  | None => true
  end.

(** Modelled from the spec: the outcome of paging through the log-event
    query service for one source (section 4.2), an external collaborator:
    every stored event in order, or a failure that survived the retries, with
    the events delivered before it. *)
Inductive Fetched : Type :=
| FetchOk (events : list RawEvent)
| SourceFetchError (partial : list RawEvent).

(** Modelled from the spec: a failed source contributes its partial
    result (section 4.4). *)
Definition delivered (f : Fetched) : list RawEvent :=
  match f with
  | FetchOk events => events
  | SourceFetchError partial => partial
  end.

(** Modelled from the spec: whether the fetch ended in SourceFetchError
    (section 7). *)
Definition failed (f : Fetched) : bool :=
  match f with
  | FetchOk _ => false
  | SourceFetchError _ => true
  end.

(** Modelled from the spec: the log-event query service of section 6, an
    external collaborator, as what it holds for each source identifier. *)
Definition Service : Type := string -> Fetched.

(** Modelled from the spec: the ordering key of a record the service
    returns (sections 3 and 6). *)
Definition raw_key (r : RawEvent) : OrderingKey :=
  (raw_timestamp r, raw_dedup_key r).

(** Modelled from the spec: a LogEvent is the service's record together
    with the source it was fetched from (sections 3 and 6). *)
Definition stamp (src : string) (r : RawEvent) : LogEvent :=
  {| source := src;
     timestamp := raw_timestamp r;
     message := raw_message r;
     dedup_key := raw_dedup_key r |}.

Section Pullers.

(** The grammar of filter patterns is opaque: whether a pattern matches
    an event is a parameter. *)
Variable matches : string -> RawEvent -> bool.

(** Modelled from the spec: the FilterPattern of section 3, where an
    empty or absent pattern means no filtering; the pullers are not in
    the source files. *)
Definition passes (filter_pattern : option string) (r : RawEvent) : bool :=
  match filter_pattern with
  | None => true
  | Some p => if (p =? "")%string then true else matches p r
  end.

(** Modelled from the spec: FetchWindow of section 4.2, which is not in
    the source files.  The events of one source inside the window that
    pass the filter, in the order the service holds them, each stamped
    with the source. *)
Definition FetchWindow (svc : Service) (src : string) (w : TimeWindow)
    (filter_pattern : option string) : list LogEvent :=
  map (stamp src)
      (filter (fun r => in_window w r && passes filter_pattern r)
              (delivered (svc src))).

(** Modelled from the spec: LoadWindow of section 4.4, which is not in
    the source files.  Every source is fetched, a failed source
    contributes what it delivered and a diagnostic, and the per-source
    sequences are merged. *)
Definition LoadWindow (svc : Service) (sources : list string)
    (w : TimeWindow) (filter_pattern : option string)
  : list LogEvent * list string :=
  (kmerge (map (fun src => FetchWindow svc src w filter_pattern) sources),
   filter (fun src => failed (svc src)) sources).

(** Modelled from the spec: the Cursor of section 3, the ordering key of
    the last event seen. *)
Definition Cursor : Type := OrderingKey.

(** Modelled from the spec: the de-duplication of section 4.2, which is
    not in the source files.  An event at or before the cursor is
    dropped; an event past it is emitted and becomes the cursor. *)
Fixpoint advance (cursor : Cursor) (returned : list LogEvent)
  : list LogEvent * Cursor :=
  match returned with
  | [] => ([], cursor)
  | e :: rest =>
      if key_leb (ordering_key e) cursor
      then advance cursor rest
      else let (out, c) := advance (ordering_key e) rest in (e :: out, c)
  end.

(** Modelled from the spec: Poll of section 4.2, which is not in the
    source files.  [returned] is what the service sends back for this
    poll. *)
Definition Poll (src : string) (cursor : Cursor)
    (filter_pattern : option string) (returned : list RawEvent)
  : list LogEvent * Cursor :=
  advance cursor (map (stamp src) (filter (passes filter_pattern) returned)).

(** Modelled from the spec: the rounds of Tail in section 4.4, for one
    source; the multiplexer is not in the source files.  Each round polls
    from the cursor the round before returned.  The result lists, round by
    round, the events emitted and the cursor returned. *)
Fixpoint poll_rounds (src : string) (cursor : Cursor)
    (filter_pattern : option string) (replies : list (list RawEvent))
  : list (list LogEvent * Cursor) :=
  match replies with
  | [] => []
  | returned :: later =>
      let round := Poll src cursor filter_pattern returned in
      round :: poll_rounds src (snd round) filter_pattern later
  end.

End Pullers.

End Engine.

(** ** The source resolver *)

Module Resolver.

(** Modelled from the spec: the ResourceInformation of section 3; the
    class ResourcePhysicalIdResolver is imported by command.py and not
    defined there. *)
Inductive ResourceType : Type :=
| function
| log_group
| state_machine
| other_supported
| unsupported.

Record ResourceInformation : Type := {
  logical_name : string;
  resource_type : ResourceType;
  physical_id : string
}.

(** Modelled from the spec: what ListResources of section 6 enumerates, a
    stack of resources and nested stacks; the metadata service is an external
    collaborator. *)
#[warnings="-register-all"] Inductive StackEntry : Type :=
| Resource (name : string) (ty : ResourceType) (physical : string)
| NestedStack (name : string) (entries : list StackEntry).

(** Modelled from the spec: the supported resource types of section 4.1. *)
Definition supported (r : ResourceInformation) : bool :=
  match resource_type r with
  | unsupported => false
  | _ => true
  end.

(** Modelled from the spec: the nested-stack traversal of section 4.1,
    which is not in the source files.  The resources below one entry, nested
    ones under the Nested/Leaf notation. *)
Fixpoint list_resources (prefix : string) (entry : StackEntry)
  : list ResourceInformation :=
  match entry with
  | Resource name ty physical =>
      [ {| logical_name := prefix ++ name;
           resource_type := ty;
           physical_id := physical |} ]
  | NestedStack name entries =>
      flat_map (list_resources (prefix ++ name ++ "/")) entries
  end.

(** Modelled from the spec: every resource of the stack, through nested
    stacks (section 4.1). *)
Definition stack_resources (stack : list StackEntry)
  : list ResourceInformation :=
  flat_map (list_resources "") stack.

(** Modelled from the spec: the de-duplication by physical identifier of
    section 4.1, which is not in the source files.  The first resource of
    each physical identifier is kept. *)
Fixpoint dedupe (seen : list string) (l : list ResourceInformation)
  : list ResourceInformation :=
  match l with
  | [] => []
  | r :: rest =>
      if existsb (String.eqb (physical_id r)) seen
      then dedupe seen rest
      else r :: dedupe (physical_id r :: seen) rest
  end.

(** Modelled from the spec: the resolution of one logical name (section
    4.1); a name that is not found resolves to nothing. *)
Definition resolve_name (stack : list StackEntry) (name : string)
  : list ResourceInformation :=
  match find (fun r => logical_name r =? name) (stack_resources stack) with
  | Some r => [r]
  | None => []
  end.

(** Modelled from the spec: the SourceResolver contract of section 4.1,
    whose implementation is not in the source files.  Names given: each is
    resolved, a name that is not found is left out.  No names: every
    supported resource of the stack when discovery is asked for, nothing
    otherwise. *)
Definition resolve (stack : list StackEntry) (names : list string)
    (fetch_all_when_no_resource_name_given : bool)
  : list ResourceInformation :=
  if Py.truthy_seq names
  then dedupe [] (flat_map (resolve_name stack) names)
  else if fetch_all_when_no_resource_name_given
       then dedupe [] (filter supported (stack_resources stack))
       else [].

End Resolver.

(** ** Sample inputs *)

Module Samples.

Import Logs.

(** A world in which times are milliseconds, output options are their
    names, a puller is the list of sources it was built for, and the
    resolver answers from a fixed stack. *)
Definition sample_stack : list Resolver.StackEntry :=
  [ Resolver.Resource "A" Resolver.function "/aws/lambda/A";
    Resolver.Resource "B" Resolver.unsupported "bucket-B";
    Resolver.NestedStack "Nested"
      [ Resolver.Resource "Leaf" Resolver.function "/aws/lambda/Leaf" ] ].

Definition sample_parse (s : option string) (property_name : string)
  : option Z :=
  match s with
  | None => None
  | Some t => if t =? "" then None else Some (Z.of_nat (String.length t))
  end.

Definition world : Collaborators :=
  {| datetime := Z;
     OutputOption := string;
     BotoClientProvider := option string * option string;
     BotoResourceProvider := option string * option string;
     ResourcePhysicalIdResolver := list string;
     ResourceInformation := Resolver.ResourceInformation;
     Puller := list string;
     parse_time := sample_parse;
     utcnow := 1700000000000%Z;
     OutputOption_text := "text";
     OutputOption_of := fun s => s;
     get_boto_client_provider_with_config := pair;
     get_boto_resource_provider_with_config := pair;
     new_ResourcePhysicalIdResolver := fun _ _ _ ns => ns;
     get_resource_information := Resolver.resolve sample_stack;
     generate_puller := fun _ infos _ cw _ _ =>
       (map Resolver.physical_id infos ++ cw)%list;
     generate_next_command_recommendation := fun cmds =>
       String.concat "; " (map snd cmds) |}.

Definition window_args : Args :=
  {| names := [];
     stack_name := Some "my-stack";
     filter_pattern := Some "ERROR";
     tailing := false;
     include_tracing := false;
     start_time := Some "10m ago";
     end_time := None;
     cw_log_groups := ["/aws/custom/group"];
     output := None;
     region := None;
     profile := None |}.

Definition event (src : string) (t : Z) (d : string) : Engine.LogEvent :=
  {| Engine.source := src;
     Engine.timestamp := t;
     Engine.message := "line";
     Engine.dedup_key := d |}.

(** Scenario 3 of the specification: two sources, the second with the later
    de-dup key at the shared timestamp. *)
Definition scenario3 : list (list Engine.LogEvent) :=
  [ [event "src1" 1 "a"; event "src1" 3 "c"];
    [event "src2" 2 "b"; event "src2" 3 "d"] ].

Definition raw (t : Z) (d : string) : Engine.RawEvent :=
  {| Engine.raw_timestamp := t;
     Engine.raw_message := "line";
     Engine.raw_dedup_key := d |}.

(** Scenario 4: the second reply repeats the event at t=6. *)
Definition scenario4 : list (list Engine.RawEvent) :=
  [ [raw 5 "e5"; raw 6 "e6"]; [raw 6 "e6"; raw 7 "e7"] ].

Definition contains (pattern : string) (r : Engine.RawEvent) : bool :=
  Engine.raw_message r =? pattern.

End Samples.

(** ** Part III: more of command.py *)

Module Enum.

Import Logs.

(** How an invocation ends once the enum lookup of line 176 is taken into
    account: [do_cli] returns, or [OutputOption(output)] raises ValueError. *)
Inductive Outcome : Type :=
| returned
| raised_ValueError.

Section Checked.

Variable W : Collaborators.

(** The values of the [OutputOption] enum.  The enum is imported by
    command.py and not defined there, so which strings name a member is a
    parameter; [OutputOption_of W] gives the member a value names. *)
Variable member : string -> bool.

(** [OutputOption(value)]: the member of that value, or ValueError, here
    [None], when no member has it. *)
Definition lookup (value : string) : option (OutputOption W) :=
  if member value then Some (OutputOption_of W value) else None.

(** [OutputOption(output) if output else OutputOption.text]. *)
Definition selected (output : option string) : option (OutputOption W) :=
  match output with
  | Some value =>
      if Py.truthy_str (Some value)
      then lookup value
      else Some (OutputOption_text W)
  | None => Some (OutputOption_text W)
  end.

(** [do_cli] with the lookup able to raise.  The arguments of
    [generate_puller] are evaluated left to right, so the lookup comes after
    the resolver query and before the puller is built; when it raises,
    [do_cli] ends there. *)
Definition do_cli (a : Args) : Run W Outcome :=
  (if Py.truthy_seq (names a) && (length (names a) <=? 1)%nat
   then emit W (click_echo W hint)
   else ret tt) ;;
  sanitized_start_time <-
    invoke W (call_parse_time W (start_time a) "start-time")
             (parse_time W (start_time a) "start-time") ;;
  parsed_end <-
    invoke W (call_parse_time W (end_time a) "end-time")
             (parse_time W (end_time a) "end-time") ;;
  sanitized_end_time <-
    match parsed_end with
    | Some d => ret d
    | None => invoke W (call_utcnow W) (utcnow W)
    end ;;
  boto_client_provider <-
    invoke W (call_client_provider W (region a) (profile a))
             (get_boto_client_provider_with_config W (region a) (profile a)) ;;
  boto_resource_provider <-
    invoke W (call_resource_provider W (region a) (profile a))
             (get_boto_resource_provider_with_config W (region a) (profile a)) ;;
  resource_logical_id_resolver <-
    invoke W (call_new_resolver W boto_resource_provider boto_client_provider
                (stack_name a) (names a))
             (new_ResourcePhysicalIdResolver W boto_resource_provider
                boto_client_provider (stack_name a) (names a)) ;;
  let fetch_all_when_no_resource_name_given :=
    negb (Py.truthy_seq (cw_log_groups a)) in
  infos <-
    invoke W (call_get_resource_information W resource_logical_id_resolver
                fetch_all_when_no_resource_name_given)
             (get_resource_information W resource_logical_id_resolver
                fetch_all_when_no_resource_name_given) ;;
  match selected (output a) with
  | None => ret raised_ValueError
  | Some output_option =>
      puller <-
        invoke W (call_generate_puller W boto_client_provider infos
                    (filter_pattern a) (cw_log_groups a) output_option
                    (include_tracing a))
                 (generate_puller W boto_client_provider infos
                    (filter_pattern a) (cw_log_groups a) output_option
                    (include_tracing a)) ;;
      (if tailing a
       then emit W (call_tail W puller sanitized_start_time (filter_pattern a))
       else emit W (call_load_time_period W puller sanitized_start_time
                      sanitized_end_time (filter_pattern a))) ;;
      (if tailing a
       then
         let cmds :=
           [ ("Tail Logs from All Support Resources and X-Ray",
              "sam logs --stack-name " ++ Py.str (stack_name a) ++
              " --tail --include-traces");
             ("Tail X-Ray Information", "sam traces --tail") ] in
         command_suggestions <-
           invoke W (call_recommendation W cmds)
                    (generate_next_command_recommendation W cmds) ;;
         emit W (click_secho W command_suggestions "yellow")
       else ret tt) ;;
      ret returned
  end.

(** The calls of one invocation, in order, and how it ends. *)
Definition trace (a : Args) : list (Call W) :=
  execState (do_cli a) [].

Definition outcome (a : Args) : Outcome :=
  evalState (do_cli a) [].

End Checked.

End Enum.

Module Cli.

Import Logs.

(** What [cli] reads off the click context. *)
Record Context : Type := {
  ctx_region : option string;
  ctx_profile : option string
}.

(** [cli], the click entry point: it hands its options to [do_cli] by
    position and takes region and profile from the context. *)
Definition cli (W : Collaborators) (member : string -> bool) (ctx : Context)
    (name : list string) (stack_name : option string)
    (filter : option string) (tail : bool) (include_traces : bool)
    (start_time end_time : option string) (output : option string)
    (cw_log_group : list string) (config_file config_env : option string)
  : Run W Enum.Outcome :=
  Enum.do_cli W member
    {| names := name;
       Logs.stack_name := stack_name;
       filter_pattern := filter;
       tailing := tail;
       include_tracing := include_traces;
       Logs.start_time := start_time;
       Logs.end_time := end_time;
       cw_log_groups := cw_log_group;
       Logs.output := output;
       region := ctx_region ctx;
       profile := ctx_profile ctx |}.

End Cli.

Module EnumSamples.

Import Logs.

(** An enum with the members text and json, over the sample world. *)
Definition text_or_json (value : string) : bool :=
  (value =? "text") || (value =? "json").

(** The sample invocation with an output selector. *)
Definition with_output (selector : string) : Args :=
  {| names := [];
     stack_name := Some "my-stack";
     filter_pattern := Some "ERROR";
     tailing := false;
     include_tracing := false;
     start_time := Some "10m ago";
     end_time := None;
     cw_log_groups := ["/aws/custom/group"];
     output := Some selector;
     region := None;
     profile := None |}.

End EnumSamples.

Module LogViews.

Import Logs.

Section Views.

Variable W : Collaborators.

(** The arguments of each [parse_time] call. *)
Definition parse_requests (tr : list (Call W))
  : list (option string * string) :=
  flat_map (fun c => match c with
                     | call_parse_time _ s n => [(s, n)]
                     | _ => []
                     end) tr.

(** How often the clock was read. *)
Definition clock_reads (tr : list (Call W)) : nat :=
  length (filter (fun c => match c with
                           | call_utcnow _ => true
                           | _ => false
                           end) tr).

(** The start handed to each streaming call. *)
Definition starts (tr : list (Call W)) : list (option (datetime W)) :=
  flat_map (fun c => match c with
                     | call_tail _ _ s _ => [s]
                     | call_load_time_period _ _ s _ _ => [s]
                     | _ => []
                     end) tr.

(** Region and profile of each boto client provider request. *)
Definition client_requests (tr : list (Call W))
  : list (option string * option string) :=
  flat_map (fun c => match c with
                     | call_client_provider _ r p => [(r, p)]
                     | _ => []
                     end) tr.

(** Region and profile of each boto resource provider request. *)
Definition resource_requests (tr : list (Call W))
  : list (option string * option string) :=
  flat_map (fun c => match c with
                     | call_resource_provider _ r p => [(r, p)]
                     | _ => []
                     end) tr.

(** The arguments of each resolver construction. *)
Definition resolver_constructions (tr : list (Call W))
  : list (BotoResourceProvider W * BotoClientProvider W *
          option string * list string) :=
  flat_map (fun c => match c with
                     | call_new_resolver _ rp cp s ns => [(rp, cp, s, ns)]
                     | _ => []
                     end) tr.

(** The client provider and the tracing flag of each puller construction. *)
Definition puller_settings (tr : list (Call W))
  : list (BotoClientProvider W * bool) :=
  flat_map (fun c => match c with
                     | call_generate_puller _ cp _ _ _ _ t => [(cp, t)]
                     | _ => []
                     end) tr.

(** The command lists handed to [generate_next_command_recommendation]. *)
Definition recommendations (tr : list (Call W))
  : list (list (string * string)) :=
  flat_map (fun c => match c with
                     | call_recommendation _ cmds => [cmds]
                     | _ => []
                     end) tr.

(** Message and colour of each [click.secho]. *)
Definition styled (tr : list (Call W)) : list (string * string) :=
  flat_map (fun c => match c with
                     | click_secho _ m fg => [(m, fg)]
                     | _ => []
                     end) tr.

(** The calls that come before the resolver is queried. *)
Definition is_setup (c : Call W) : bool :=
  match c with
  | click_echo _ _ | call_parse_time _ _ _ | call_utcnow _
  | call_client_provider _ _ _ | call_resource_provider _ _ _
  | call_new_resolver _ _ _ _ _ => true
  | _ => false
  end.

(** The calls that print the follow-up suggestions. *)
Definition is_suggestion (c : Call W) : bool :=
  match c with
  | call_recommendation _ _ | click_secho _ _ _ => true
  | _ => false
  end.

End Views.

Definition set_tailing (a : Args) (b : bool) : Args :=
  {| names := names a;
     stack_name := stack_name a;
     filter_pattern := filter_pattern a;
     tailing := b;
     include_tracing := include_tracing a;
     start_time := start_time a;
     end_time := end_time a;
     cw_log_groups := cw_log_groups a;
     output := output a;
     region := region a;
     profile := profile a |}.

(** The commands [do_cli] suggests after tailing. *)
Definition suggested (stack : option string) : list (string * string) :=
  [ ("Tail Logs from All Support Resources and X-Ray",
     "sam logs --stack-name " ++ Py.str stack ++ " --tail --include-traces");
    ("Tail X-Ray Information", "sam traces --tail") ].

End LogViews.

(** ** Part IV: the Terraform start-api test harness

    [test_start_api_with_terraform_application.py]: the class set-up and
    tear-down, the command runner and the limitation test.  What the file
    calls and does not define is a field of [System]. *)

Module Harness.

(** The exceptions the file raises, catches or lets through.  [NotSet]
    stands for reading a class attribute that no set-up has assigned: which
    exception that is depends on the base class, which is not in the file. *)
Inductive Exn : Type :=
| CalledProcessError
| TimeoutExpired
| FileNotFoundError
| PermissionError
| IndexError
| TypeError
| AssertionError
| UnicodeDecodeError
| NotSet (attribute : string)
| OtherError (name : string).

(** Decoded text, as code points. *)
Definition Text : Type := list N.

Definition codes (s : string) : Text :=
  map N_of_ascii (list_ascii_of_string s).

(** What [subprocess.run] returns, as far as the file reads it: the exit
    code, and stderr after [decode("utf-8")], absent when the bytes do not
    decode. *)
Record CompletedProcess : Type := {
  returncode : Z;
  stderr_decoded : option Text
}.

(** The calls that reach outside the file. *)
Inductive Action (P : Type) : Type :=
| subprocess_run (command : list string) (cwd : P) (check : bool)
    (timeout : Z)
| shutil_rmtree (path : P) (ignore_errors : bool)
| os_remove (path : P)
| log_info
| super_setUpClass
| super_tearDownClass
| call_get_sam_command
| call_random_port.

Arguments subprocess_run {P}.
Arguments shutil_rmtree {P}.
Arguments os_remove {P}.
Arguments log_info {P}.
Arguments super_setUpClass {P}.
Arguments super_tearDownClass {P}.
Arguments call_get_sam_command {P}.
Arguments call_random_port {P}.

(** What the file imports: pathlib, the helpers of the test utilities, and
    the machine the calls run on.  [get_sam_command] and [random_port] are
    what the two helpers return; [raises] says whether a call raises, given
    the calls made before it; [completes] is the process a run returns. *)
Record System : Type := {
  Path : Type;
  this_file : Path;
  parents : Path -> nat -> option Path;
  joinpath : Path -> string -> Path;
  get_sam_command : string;
  random_port : Z;
  raises : list (Action Path) -> Action Path -> option Exn;
  completes : list (Action Path) -> Action Path -> CompletedProcess
}.

(** The class attributes the file assigns or reads. *)
Record Cls (P : Type) : Type := {
  terraform_application : option string;
  expected_error_message : option string;
  template_path : option string;
  build_before_invoke : option bool;
  command_list : option (list string);
  test_data_path : option P;
  project_directory : option P
}.

Arguments terraform_application {P}.
Arguments expected_error_message {P}.
Arguments template_path {P}.
Arguments build_before_invoke {P}.
Arguments command_list {P}.
Arguments test_data_path {P}.
Arguments project_directory {P}.

(** [run_command_timeout = 300]. *)
Definition run_command_timeout : Z := 300.

(** The three parameter sets of [TestStartApiTerraformApplicationLimitations]:
    application and expected message. *)
Definition limitation_cases : list (string * string) :=
  [ ("lambda-auth-openapi",
     "Error: AWS SAM CLI is unable to process a Terraform project that uses an OpenAPI" ++
     " specification to define the API Gateway resource.");
    ("terraform-api-simple-multiple-resources-limitation",
     "Error: AWS SAM CLI could not process a Terraform project that contains a source " ++
     "resource that is linked to more than one destination resource.");
    ("terraform-api-simple-local-variables-limitation",
     "Error: AWS SAM CLI could not process a Terraform project that uses local " ++
     "variables to define linked resources.") ].

(** The message [test_unsupported_limitations] looks for in every case. *)
Definition apply_disclaimer_message : string :=
  "Unresolvable attributes discovered in project, run terraform apply to resolve them.".

(** The characters a regular expression gives a meaning other than
    themselves, the dot apart. *)
Definition special (c : ascii) : bool :=
  existsb (Ascii.eqb c) (list_ascii_of_string "\^$*+?{}[]()|").

(** A pattern in which only the dot is special. *)
Definition plain (pattern : string) : bool :=
  forallb (fun c => negb (special c)) (list_ascii_of_string pattern).

(** One pattern character against one character of the text: the dot takes
    anything but a newline, any other character takes itself. *)
Definition matches_char (p x : N) : bool :=
  if (p =? 46)%N then negb (x =? 10)%N else (x =? p)%N.

(** The pattern matches at the front of the text. *)
Fixpoint match_here (pattern text : Text) : bool :=
  match pattern, text with
  | [], _ => true
  | _ :: _, [] => false
  | p :: pattern', x :: text' => matches_char p x && match_here pattern' text'
  end.

(** [re.search] for a plain pattern: the pattern matches somewhere. *)
Fixpoint search (pattern text : Text) : bool :=
  match_here pattern text ||
  match text with
  | [] => false
  | _ :: text' => search pattern text'
  end.

(** The text is the pattern read with every dot replaced by some character
    other than a newline. *)
Definition instance_of (pattern text : Text) : Prop :=
  Forall2 (fun p x => matches_char p x = true) pattern text.

Section Tests.

Variable S : System.

(** The state a test run threads: the class attributes and the calls made
    so far. *)
Record State : Type := {
  cls : Cls (Path S);
  log : list (Action (Path S))
}.

(** A step of the harness: it ends with a value or with an exception, and
    leaves the state it reached either way. *)
Definition Test (A : Type) : Type := State -> State * (Exn + A).

#[export] Instance Monad_Test : Monad Test := {
  ret := fun _ x st => (st, inr x);
  bind := fun _ _ c k st =>
    match c st with
    | (st', inl e) => (st', inl e)
    | (st', inr x) => k x st'
    end
}.

Definition raise {A} (e : Exn) : Test A := fun st => (st, inl e).

(** [try: body except <caught>: pass]. *)
Definition try_except (body : Test unit) (caught : Exn -> bool) : Test unit :=
  fun st =>
    match body st with
    | (st', inl e) => if caught e then (st', inr tt) else (st', inl e)
    | r => r
    end.

(** A call that returns nothing: it is logged, and raises when the system
    says so. *)
Definition perform (a : Action (Path S)) : Test unit :=
  fun st =>
    ({| cls := cls st; log := (log st ++ [a])%list |},
     match raises S (log st) a with
     | Some e => inl e
     | None => inr tt
     end).

(** [LOG.info(...)]: logged; logging does not raise. *)
Definition note (a : Action (Path S)) : Test unit :=
  fun st => ({| cls := cls st; log := (log st ++ [a])%list |}, inr tt).

(** Reading a class attribute. *)
Definition attribute {A} (name : string) (field : Cls (Path S) -> option A)
  : Test A :=
  fun st =>
    match field (cls st) with
    | Some v => (st, inr v)
    | None => (st, inl (NotSet name))
    end.

(** Assigning a class attribute. *)
Definition assign (update : Cls (Path S) -> Cls (Path S)) : Test unit :=
  fun st => ({| cls := update (cls st); log := log st |}, inr tt).

(** Reading [cls.terraform_application], which the base class sets to
    [None]. *)
Definition read_application : Test (option string) :=
  fun st => (st, inr (terraform_application (cls st))).

(** [path / name] where the name may be [None], which [/] rejects. *)
Definition join_optional (p : Path S) (name : option string) : Test (Path S) :=
  match name with
  | Some n => ret (joinpath S p n)
  | None => raise TypeError
  end.

(** [get_integ_dir]: [Path(__file__).resolve().parents[2]]. *)
Definition get_integ_dir : Test (Path S) :=
  match parents S (this_file S) 2 with
  | Some p => ret p
  | None => raise IndexError
  end.

(** [subprocess.run(command, cwd=..., check=..., capture_output=True,
    timeout=...)]: with [check], a non-zero exit code raises
    CalledProcessError. *)
Definition run (command : list string) (cwd : Path S) (check : bool)
    (timeout : Z) : Test CompletedProcess :=
  fun st =>
    let a := subprocess_run command cwd check timeout in
    let st' := {| cls := cls st; log := (log st ++ [a])%list |} in
    match raises S (log st) a with
    | Some e => (st', inl e)
    | None =>
        let process := completes S (log st) a in
        if check && negb (returncode process =? 0)%Z
        then (st', inl CalledProcessError)
        else (st', inr process)
    end.

(** [shutil.rmtree(path, ignore_errors=True)]: errors of the removal are
    ignored. *)
Definition rmtree_ignoring_errors (path : Path S) : Test unit :=
  try_except (perform (shutil_rmtree path true)) (fun _ => true).

(** The directory of one Terraform application under the integration
    directory: testdata/start_api/terraform/<application>. *)
Definition application_directory (integ : Path S) (app : string) : Path S :=
  joinpath S
    (joinpath S (joinpath S (joinpath S integ "testdata") "start_api")
              "terraform")
    app.

(** [_run_command]. *)
Definition _run_command (command : list string) (check : bool)
  : Test CompletedProcess :=
  integ <- get_integ_dir ;;
  app <- read_application ;;
  test_data_folder <-
    join_optional
      (joinpath S (joinpath S (joinpath S integ "testdata") "start_api")
                "terraform")
      app ;;
  run command test_data_folder check run_command_timeout.

(** [_remove_generated_directories]. *)
Definition _remove_generated_directories : Test unit :=
  pd <- attribute "project_directory" project_directory ;;
  rmtree_ignoring_errors (joinpath S pd ".aws-sam-iacs") ;;
  pd <- attribute "project_directory" project_directory ;;
  rmtree_ignoring_errors (joinpath S pd ".terraform") ;;
  try_except
    (pd <- attribute "project_directory" project_directory ;;
     perform (os_remove (joinpath S pd ".terraform.lock.hcl")))
    (fun e => match e with
              | FileNotFoundError | PermissionError => true
              | _ => false
              end).

Definition set_template_path (v : string) (c : Cls (Path S)) : Cls (Path S) :=
  {| terraform_application := terraform_application c;
     expected_error_message := expected_error_message c;
     template_path := Some v;
     build_before_invoke := build_before_invoke c;
     command_list := command_list c;
     test_data_path := test_data_path c;
     project_directory := project_directory c |}.

Definition set_build_before_invoke (v : bool) (c : Cls (Path S))
  : Cls (Path S) :=
  {| terraform_application := terraform_application c;
     expected_error_message := expected_error_message c;
     template_path := template_path c;
     build_before_invoke := Some v;
     command_list := command_list c;
     test_data_path := test_data_path c;
     project_directory := project_directory c |}.

Definition set_command_list (v : list string) (c : Cls (Path S))
  : Cls (Path S) :=
  {| terraform_application := terraform_application c;
     expected_error_message := expected_error_message c;
     template_path := template_path c;
     build_before_invoke := build_before_invoke c;
     command_list := Some v;
     test_data_path := test_data_path c;
     project_directory := project_directory c |}.

Definition set_test_data_path (v : Path S) (c : Cls (Path S)) : Cls (Path S) :=
  {| terraform_application := terraform_application c;
     expected_error_message := expected_error_message c;
     template_path := template_path c;
     build_before_invoke := build_before_invoke c;
     command_list := command_list c;
     test_data_path := Some v;
     project_directory := project_directory c |}.

Definition set_project_directory (v : Path S) (c : Cls (Path S))
  : Cls (Path S) :=
  {| terraform_application := terraform_application c;
     expected_error_message := expected_error_message c;
     template_path := template_path c;
     build_before_invoke := build_before_invoke c;
     command_list := command_list c;
     test_data_path := test_data_path c;
     project_directory := Some v |}.

(** The two assignments both set-ups share:
    [cls.test_data_path = Path(cls.get_integ_dir()) / "testdata" / "start_api"]
    and [cls.project_directory = cls.test_data_path / "terraform" /
    cls.terraform_application]. *)
Definition assign_directories : Test unit :=
  integ <- get_integ_dir ;;
  assign (set_test_data_path
            (joinpath S (joinpath S integ "testdata") "start_api")) ;;
  tdp <- attribute "test_data_path" test_data_path ;;
  app <- read_application ;;
  pd <- join_optional (joinpath S tdp "terraform") app ;;
  assign (set_project_directory pd).

(** The command every class starts from. *)
Definition base_command : list string :=
  [get_sam_command S; "local"; "start-api"; "--hook-name"; "terraform";
   "--beta-features"].

(** [str] of an integer. *)
Definition str_int (z : Z) : string :=
  DecimalString.NilZero.string_of_int (Z.to_int z).

(** [TerraformStartApiIntegrationBase.setUpClass]. *)
Definition Base_setUpClass : Test unit :=
  assign (set_template_path "") ;;
  assign (set_build_before_invoke false) ;;
  assign (set_command_list base_command) ;;
  assign_directories ;;
  perform super_setUpClass.

(** [TerraformStartApiIntegrationBase.tearDownClass]. *)
Definition Base_tearDownClass : Test unit :=
  perform super_tearDownClass ;;
  _remove_generated_directories.

(** [TerraformStartApiIntegrationApplyBase.setUpClass]. *)
Definition Apply_setUpClass : Test unit :=
  _run_command ["terraform"; "init"; "-input=false"] true ;;
  _run_command ["terraform"; "apply"; "-auto-approve"; "-input=false"] true ;;
  Base_setUpClass.

(** The first [try] of the apply tear-down: terraform destroy, a failure
    of the command being passed over. *)
Definition destroy_quietly : Test unit :=
  try_except
    (_run_command
       ["terraform"; "apply"; "-destroy"; "-auto-approve"; "-input=false"]
       true ;;
     ret tt)
    (fun e => match e with
              | CalledProcessError => true
              | _ => false
              end).

(** The second [try] of the apply tear-down: the state file, then its
    backup. *)
Definition remove_state_files : Test unit :=
  try_except
    (pd <- attribute "project_directory" project_directory ;;
     perform (os_remove (joinpath S pd "terraform.tfstate")) ;;
     pd <- attribute "project_directory" project_directory ;;
     perform (os_remove (joinpath S pd "terraform.tfstate.backup")))
    (fun e => match e with
              | FileNotFoundError | PermissionError => true
              | _ => false
              end).

(** [TerraformStartApiIntegrationApplyBase.tearDownClass]. *)
Definition Apply_tearDownClass : Test unit :=
  destroy_quietly ;;
  remove_state_files ;;
  Base_tearDownClass.

(** [TestStartApiTerraformApplicationLimitations.setUpClass].  Its calls
    of the imported [get_sam_command] and [random_port] are logged and may
    raise; [get_sam_command S] and [random_port S] are what they return. *)
Definition Limitations_setUpClass : Test unit :=
  perform call_get_sam_command ;;
  perform call_random_port ;;
  assign (set_command_list
            (base_command ++ ["-p"; str_int (random_port S)])%list) ;;
  assign_directories.

(** [TestStartApiTerraformApplicationLimitations.tearDownClass]. *)
Definition Limitations_tearDownClass : Test unit :=
  _remove_generated_directories.

(** [assertEqual(process.returncode, 1)]. *)
Definition assertEqual_returncode (process : CompletedProcess) : Test unit :=
  if (returncode process =? 1)%Z then ret tt else raise AssertionError.

(** [assertRegex(output, pattern)]. *)
Definition assertRegex (output : Text) (pattern : string) : Test unit :=
  if search (codes pattern) output then ret tt else raise AssertionError.

(** [test_unsupported_limitations]. *)
Definition test_unsupported_limitations : Test unit :=
  command <- attribute "command_list" command_list ;;
  process <- _run_command command false ;;
  note log_info ;;
  output <- match stderr_decoded process with
            | Some text => ret text
            | None => raise UnicodeDecodeError
            end ;;
  assertEqual_returncode process ;;
  expected <- attribute "expected_error_message" expected_error_message ;;
  assertRegex output expected ;;
  assertRegex output apply_disclaimer_message.

End Tests.

End Harness.

Module HarnessSamples.

Import Harness.

(** A system with paths as component lists, in which the state files are
    missing, every command exits with 1 and stderr carries the message of the
    multiple-resources case and the disclaimer. *)
Definition sample_parents (p : list string) (n : nat) : option (list string) :=
  if (n <? length p)%nat then Some (firstn (length p - S n) p) else None.

Definition sample_stderr : Text :=
  codes ("Error: AWS SAM CLI could not process a Terraform project that contains a source " ++
         "resource that is linked to more than one destination resource." ++
         " Unresolvable attributes discovered in project, run terraform apply to resolve them.").

Definition system : System :=
  {| Path := list string;
     this_file :=
       ["repo"; "tests"; "integration"; "local"; "start_api"; "test.py"];
     parents := sample_parents;
     joinpath := fun p s => (p ++ [s])%list;
     get_sam_command := "sam";
     random_port := 3001;
     raises := fun _ a =>
       match a with
       | os_remove _ => Some FileNotFoundError
       | _ => None
       end;
     completes := fun _ _ =>
       {| returncode := 1; stderr_decoded := Some sample_stderr |} |}.

Definition project : list string :=
  ["repo"; "tests"; "integration"; "testdata"; "start_api"; "terraform";
   "terraform-api-simple-multiple-resources-limitation"].

Definition limitation_class : Cls (list string) :=
  {| terraform_application :=
       Some "terraform-api-simple-multiple-resources-limitation";
     expected_error_message :=
       Some ("Error: AWS SAM CLI could not process a Terraform project that contains a source " ++
             "resource that is linked to more than one destination resource.");
     template_path := None;
     build_before_invoke := None;
     command_list := Some ["sam"; "local"; "start-api"];
     test_data_path := None;
     project_directory := Some project |}.

Definition ready : State system :=
  Build_State system limitation_class [].


End HarnessSamples.

(** * Properties *)

Lemma truthy_seq_false {A} (l : list A) : Py.truthy_seq l = false <-> l = [].
Proof. destruct l; simpl; split; congruence. Qed.

Lemma truthy_seq_true {A} (l : list A) : Py.truthy_seq l = true <-> l <> [].
Proof. destruct l; simpl; split; congruence. Qed.

(** ** The command driver *)

Section DriverFacts.

Import Logs.

Variable W : Collaborators.

(** Splits an invocation along the three tests [do_cli] makes: the name
    count, the parsed end time and the tail flag. *)
Ltac branches a :=
  unfold trace, do_cli; cbn;
  destruct (Py.truthy_seq (names a) && (length (names a) <=? 1)%nat);
  destruct (parse_time W (end_time a) "end-time");
  destruct (tailing a); cbn.

Lemma hint_condition (l : list string) :
  Py.truthy_seq l && (length l <=? 1)%nat = (length l =? 1)%nat.
Proof. destruct l as [|x [|y l]]; reflexivity. Qed.

(** C10. The hint about omitting the name parameter is printed when exactly
    one name is given, and in no other case. *)
Theorem hint_iff_single_name (a : Args) :
  echoed W (trace W a) =
    (if (length (names a) =? 1)%nat then [hint] else []) /\
  (In (click_echo W hint) (trace W a) <-> length (names a) = 1%nat).
Proof.
  rewrite <- hint_condition.
  unfold trace, do_cli; cbn.
  destruct (Py.truthy_seq (names a) && (length (names a) <=? 1)%nat) eqn:E;
    rewrite hint_condition in E;
    destruct (parse_time W (end_time a) "end-time");
    destruct (tailing a); cbn;
    (split; [reflexivity|]);
    (split; [intros H|intros H]);
    try (apply Nat.eqb_eq; exact E);
    try (left; reflexivity);
    try (apply Nat.eqb_eq in H; congruence);
    repeat (destruct H as [H|H]; try discriminate H); try contradiction.
Qed.

(** C6. One streaming call per invocation: [tail] with the start time and
    the filter when the tail flag is set, [load_time_period] with start, end
    and filter otherwise.  Under the tail flag the end time has no part in
    the call. *)
Theorem one_mode_per_invocation (a : Args) :
  exists p,
    constructed W (trace W a) = [p] /\
    mode_calls W (trace W a) =
      [ if tailing a
        then call_tail W p (parse_time W (start_time a) "start-time")
               (filter_pattern a)
        else call_load_time_period W p
               (parse_time W (start_time a) "start-time")
               (match parse_time W (end_time a) "end-time" with
                | Some d => d
                | None => utcnow W
                end)
               (filter_pattern a) ] /\
    (tailing a = true ->
     forall e, mode_calls W (trace W (set_end_time a e)) =
               mode_calls W (trace W a)).
Proof.
  eexists. split; [|split].
  - branches a; reflexivity.
  - branches a; reflexivity.
  - intros Ht e. unfold trace, do_cli; cbn. rewrite Ht.
    destruct (Py.truthy_seq (names a) && (length (names a) <=? 1)%nat);
      destruct (parse_time W (end_time a) "end-time");
      destruct (parse_time W e "end-time"); reflexivity.
Qed.

(** C7. In window mode the end time given on the command line goes through
    [parse_time], and what it yields is the end of the window; when it
    yields nothing, as for an end time that was not supplied, the end of
    the window is the clock reading taken during the invocation. *)
Theorem window_end_defaults_to_now (a : Args) (Hwindow : tailing a = false) :
  In (call_parse_time W (end_time a) "end-time") (trace W a) /\
  (forall d, parse_time W (end_time a) "end-time" = Some d ->
     window_ends W (trace W a) = [d] /\ ~ In (call_utcnow W) (trace W a)) /\
  (parse_time W (end_time a) "end-time" = None ->
     window_ends W (trace W a) = [utcnow W] /\
     In (call_utcnow W) (trace W a)) /\
  (end_time a = None -> parse_time W None "end-time" = None ->
     window_ends W (trace W a) = [utcnow W]).
Proof.
  assert (Hnone : parse_time W (end_time a) "end-time" = None ->
            window_ends W (trace W a) = [utcnow W] /\
            In (call_utcnow W) (trace W a)).
  { intros Hp. unfold trace, do_cli; cbn. rewrite Hp, Hwindow.
    destruct (Py.truthy_seq (names a) && (length (names a) <=? 1)%nat); cbn;
      (split; [reflexivity|]); intuition. }
  split; [|split; [|split]].
  - unfold trace, do_cli; cbn. rewrite Hwindow.
    destruct (Py.truthy_seq (names a) && (length (names a) <=? 1)%nat);
      destruct (parse_time W (end_time a) "end-time"); cbn; intuition.
  - intros d Hp. unfold trace, do_cli; cbn. rewrite Hp, Hwindow.
    destruct (Py.truthy_seq (names a) && (length (names a) <=? 1)%nat); cbn;
      (split; [reflexivity|]); intros H;
      repeat (destruct H as [H|H]; try discriminate H); contradiction.
  - exact Hnone.
  - intros He Hp. apply Hnone. rewrite He. exact Hp.
Qed.

(** C4. The resolver is asked once, and it is asked to discover the whole
    stack exactly when no CloudWatch log group is given; the puller is built
    from what the resolver answers and from the log groups as given.  With a
    resolver that follows the resolution contract, log groups on the command
    line leave only the named resources, none when no name is given. *)
Theorem discovery_iff_no_raw_sources (a : Args) :
  exists r flag,
    resolver_requests W (trace W a) = [(r, flag)] /\
    (flag = true <-> cw_log_groups a = []) /\
    sources_requested W (trace W a) =
      [(get_resource_information W r flag, cw_log_groups a)] /\
    (forall (stack : list Resolver.StackEntry)
            (view : ResourceInformation W -> Resolver.ResourceInformation),
       (forall rp cp sn ns b,
          map view (get_resource_information W
                      (new_ResourcePhysicalIdResolver W rp cp sn ns) b) =
          Resolver.resolve stack ns b) ->
       cw_log_groups a <> [] ->
       map view (get_resource_information W r flag) =
         Resolver.dedupe []
           (flat_map (Resolver.resolve_name stack) (names a))).
Proof.
  exists (new_ResourcePhysicalIdResolver W
            (get_boto_resource_provider_with_config W (region a) (profile a))
            (get_boto_client_provider_with_config W (region a) (profile a))
            (stack_name a) (names a)),
         (negb (Py.truthy_seq (cw_log_groups a))).
  split; [|split; [|split]].
  - branches a; reflexivity.
  - rewrite Bool.negb_true_iff. apply truthy_seq_false.
  - branches a; reflexivity.
  - intros stack view Hspec Hraw. rewrite Hspec.
    apply truthy_seq_true in Hraw. rewrite Hraw. cbn.
    unfold Resolver.resolve. destruct (names a); reflexivity.
Qed.

End DriverFacts.

(** ** Comparisons *)

Section Comparisons.

Import Order.

(** A comparison function that decides a strict total order. *)
Class Comparison {A : Type} (cmp : A -> A -> comparison) : Prop := {
  cmp_eq : forall x y, cmp x y = Eq <-> x = y;
  cmp_opp : forall x y, cmp y x = CompOpp (cmp x y);
  cmp_lt_trans : forall x y z, cmp x y = Lt -> cmp y z = Lt -> cmp x z = Lt
}.

#[export] Instance Z_comparison : Comparison Z.compare.
Proof.
  split.
  - apply Z.compare_eq_iff.
  - intros x y. apply Z.compare_antisym.
  - intros x y z. rewrite !Z.compare_lt_iff. lia.
Qed.

#[export] Instance string_comparison : Comparison String.compare.
Proof.
  split.
  - apply OrderedTypeEx.String_as_OT.cmp_eq.
  - intros x y. apply String.compare_antisym.
  - intros x y z Hxy Hyz.
    apply OrderedTypeEx.String_as_OT.cmp_lt in Hxy, Hyz.
    apply OrderedTypeEx.String_as_OT.cmp_lt.
    eapply OrderedTypeEx.String_as_OT.lt_trans; eassumption.
Qed.

#[export] Instance lex_comparison {A B : Type}
    (cmpA : A -> A -> comparison) (cmpB : B -> B -> comparison)
    `{!Comparison cmpA} `{!Comparison cmpB} :
  Comparison (fun p q : A * B => lex (cmpA (fst p) (fst q)) (cmpB (snd p) (snd q))).
Proof.
  pose proof (@cmp_eq _ cmpA _) as eqA. pose proof (@cmp_eq _ cmpB _) as eqB.
  pose proof (@cmp_opp _ cmpA _) as oppA. pose proof (@cmp_opp _ cmpB _) as oppB.
  pose proof (@cmp_lt_trans _ cmpA _) as ltA.
  pose proof (@cmp_lt_trans _ cmpB _) as ltB.
  split.
  - intros [a b] [a' b']; simpl. split.
    + destruct (cmpA a a') eqn:Ea; simpl; try discriminate.
      intros Eb. apply eqA in Ea. apply eqB in Eb. congruence.
    + intros [= -> ->].
      rewrite (proj2 (eqA a' a') eq_refl). simpl.
      apply eqB. reflexivity.
  - intros [a b] [a' b']; simpl.
    rewrite (oppA a a'), (oppB b b').
    destruct (cmpA a a'); reflexivity.
  - intros [a b] [a' b'] [a'' b'']; simpl.
    destruct (cmpA a a') eqn:E1; simpl; try discriminate;
      destruct (cmpA a' a'') eqn:E2; simpl; try discriminate; intros H1 H2.
    + apply eqA in E1, E2. subst.
      rewrite (proj2 (eqA a'' a'') eq_refl). simpl.
      eapply ltB; eassumption.
    + apply eqA in E1. subst. rewrite E2. reflexivity.
    + apply eqA in E2. subst. rewrite E1. reflexivity.
    + rewrite (ltA _ _ _ E1 E2). reflexivity.
Qed.

Context {A : Type} (cmp : A -> A -> comparison) `{!Comparison cmp}.

Lemma cmp_refl x : cmp x x = Eq.
Proof. apply cmp_eq. reflexivity. Qed.

Lemma not_gt_refl x : not_gt (cmp x x) = true.
Proof. rewrite cmp_refl. reflexivity. Qed.

Lemma not_gt_false x y : not_gt (cmp x y) = false -> cmp y x = Lt.
Proof.
  rewrite (cmp_opp x y). destruct (cmp x y); simpl; congruence.
Qed.

Lemma not_gt_total x y : not_gt (cmp x y) = false -> not_gt (cmp y x) = true.
Proof. intros H. rewrite (not_gt_false _ _ H). reflexivity. Qed.

Lemma not_gt_trans x y z :
  not_gt (cmp x y) = true -> not_gt (cmp y z) = true ->
  not_gt (cmp x z) = true.
Proof.
  destruct (cmp x y) eqn:E1; simpl; try discriminate; intros _;
    destruct (cmp y z) eqn:E2; simpl; try discriminate; intros _.
  - apply cmp_eq in E1, E2. subst. apply not_gt_refl.
  - apply cmp_eq in E1. subst. rewrite E2. reflexivity.
  - apply cmp_eq in E2. subst. rewrite E1. reflexivity.
  - rewrite (cmp_lt_trans _ _ _ E1 E2). reflexivity.
Qed.

Lemma not_gt_antisym x y :
  not_gt (cmp x y) = true -> not_gt (cmp y x) = true -> x = y.
Proof.
  rewrite (cmp_opp x y). destruct (cmp x y) eqn:E; simpl; try discriminate.
  intros _ _. apply cmp_eq. exact E.
Qed.

End Comparisons.

(** ** The merge *)

Section MergeFacts.

Import Order Engine.

#[export] Instance key_comparison : Comparison key_compare.
Proof. exact (lex_comparison Z.compare String.compare). Qed.

#[export] Instance merge_comparison : Comparison merge_compare.
Proof. exact (lex_comparison key_compare String.compare). Qed.

Lemma kmerge_step srcs :
  kmerge srcs =
    match select srcs with
    | Some (e, srcs') => e :: kmerge srcs'
    | None => []
    end.
Proof.
  simp kmerge.
  destruct (inspect (select srcs)) as [[[e srcs']|] H]; simpl;
    rewrite H; reflexivity.
Qed.

(** Induction along the merge. *)
Lemma kmerge_rect (P : list (list LogEvent) -> list LogEvent -> Prop) :
  (forall srcs, select srcs = None -> P srcs []) ->
  (forall srcs e srcs',
      select srcs = Some (e, srcs') ->
      P srcs' (kmerge srcs') -> P srcs (e :: kmerge srcs')) ->
  forall srcs, P srcs (kmerge srcs).
Proof.
  intros Hnone Hsome srcs.
  remember (pending srcs) as n eqn:Hn. revert srcs Hn.
  induction n as [n IH] using lt_wf_ind. intros srcs Hn.
  rewrite kmerge_step.
  destruct (select srcs) as [[e srcs']|] eqn:Hsel.
  - apply Hsome; [exact Hsel|].
    apply (IH (pending srcs')); [|reflexivity].
    rewrite Hn, (select_pending _ _ _ Hsel). lia.
  - apply Hnone. exact Hsel.
Qed.

Lemma select_none srcs :
  select srcs = None -> Forall (fun l => l = []) srcs.
Proof.
  induction srcs as [|[|x xs] rest IH]; simpl; intros H.
  - constructor.
  - destruct (select rest) as [[e r]|]; [discriminate|].
    constructor; auto.
  - destruct (select rest) as [[e r]|]; [destruct (merge_leb x e)|];
      discriminate.
Qed.

(** The selected event is the head of one sequence, and what remains is
    that sequence without its head, the others untouched. *)
Lemma select_some srcs e srcs' :
  select srcs = Some (e, srcs') ->
  exists pre es post,
    srcs = (pre ++ (e :: es) :: post)%list /\
    srcs' = (pre ++ es :: post)%list.
Proof.
  revert e srcs'.
  induction srcs as [|[|x xs] rest IH]; simpl; intros e srcs' H.
  - discriminate.
  - destruct (select rest) as [[e1 r1]|]; [|discriminate].
    injection H as <- <-.
    destruct (IH _ _ eq_refl) as (pre & es & post & -> & ->).
    exists ([] :: pre), es, post. split; reflexivity.
  - destruct (select rest) as [[e1 r1]|].
    + destruct (merge_leb x e1); injection H as <- <-.
      * exists [], xs, rest. split; reflexivity.
      * destruct (IH _ _ eq_refl) as (pre & es & post & -> & ->).
        exists ((x :: xs) :: pre), es, post. split; reflexivity.
    + injection H as <- <-. exists [], xs, rest. split; reflexivity.
Qed.

Lemma kmerge_interleaving srcs : Interleaving srcs (kmerge srcs).
Proof.
  apply kmerge_rect; clear srcs.
  - intros srcs H. constructor. apply select_none. exact H.
  - intros srcs e srcs' H IH.
    destruct (select_some _ _ _ H) as (pre & es & post & -> & ->).
    constructor. exact IH.
Qed.

Lemma concat_all_nil (srcs : list (list LogEvent)) :
  Forall (fun l => l = []) srcs -> concat srcs = [].
Proof.
  induction 1 as [|l srcs -> _ IH]; simpl; auto.
Qed.

Lemma interleaving_permutation srcs out :
  Interleaving srcs out -> Permutation out (concat srcs).
Proof.
  induction 1 as [srcs H|pre e es post out _ IH].
  - rewrite concat_all_nil by exact H. constructor.
  - rewrite concat_app in *. simpl in *.
    apply Permutation_cons_app. exact IH.
Qed.

Lemma kmerge_permutation srcs : Permutation (kmerge srcs) (concat srcs).
Proof. apply interleaving_permutation, kmerge_interleaving. Qed.

(** *** Sortedness, for any order the tie-break rule refines *)

Section Sortedness.

Variable R : LogEvent -> LogEvent -> Prop.
Hypothesis R_refl : forall e, R e e.
Hypothesis R_trans : forall e1 e2 e3, R e1 e2 -> R e2 e3 -> R e1 e3.
Hypothesis R_leb : forall e1 e2, merge_leb e1 e2 = true -> R e1 e2.
Hypothesis R_gtb : forall e1 e2, merge_leb e1 e2 = false -> R e2 e1.

Lemma sorted_head_least x xs : Sorted R (x :: xs) -> Forall (R x) (x :: xs).
Proof.
  intros H. constructor; [apply R_refl|].
  apply Sorted_extends; [|exact H].
  intros a b c. apply R_trans.
Qed.

Lemma forall_weaken e1 e2 l : R e1 e2 -> Forall (R e2) l -> Forall (R e1) l.
Proof.
  intros H. apply Forall_impl. intros a. apply R_trans. exact H.
Qed.

Lemma select_least srcs e srcs' :
  select srcs = Some (e, srcs') ->
  Forall (Sorted R) srcs -> Forall (Forall (R e)) srcs.
Proof.
  revert e srcs'.
  induction srcs as [|[|x xs] rest IH]; simpl; intros e srcs' H Hs.
  - discriminate.
  - destruct (select rest) as [[e1 r1]|]; [|discriminate].
    injection H as <- <-. inversion Hs; subst.
    constructor; [constructor|]. eapply IH; eauto.
  - inversion Hs as [|? ? Hx Hrest]; subst.
    destruct (select rest) as [[e1 r1]|] eqn:Hsel.
    + specialize (IH _ _ eq_refl Hrest).
      destruct (merge_leb x e1) eqn:Hle; injection H as <- <-.
      * constructor; [apply sorted_head_least; exact Hx|].
        revert IH. apply Forall_impl. intros l.
        apply forall_weaken. apply R_leb. exact Hle.
      * constructor; [|exact IH].
        eapply forall_weaken; [apply R_gtb; exact Hle|].
        apply sorted_head_least. exact Hx.
    + injection H as <- <-.
      constructor; [apply sorted_head_least; exact Hx|].
      apply select_none in Hsel. revert Hsel.
      apply Forall_impl. intros l ->. constructor.
Qed.

Lemma select_keeps_sorted srcs e srcs' :
  select srcs = Some (e, srcs') ->
  Forall (Sorted R) srcs -> Forall (Sorted R) srcs'.
Proof.
  intros H Hs.
  destruct (select_some _ _ _ H) as (pre & es & post & -> & ->).
  apply Forall_app in Hs. destruct Hs as [Hpre Hpost].
  inversion Hpost as [|? ? Hx Hp]; subst.
  apply Forall_app. split; [exact Hpre|].
  constructor; [|exact Hp]. inversion Hx; assumption.
Qed.

Lemma select_bounds_rest srcs e srcs' :
  select srcs = Some (e, srcs') ->
  Forall (Sorted R) srcs -> Forall (R e) (concat srcs').
Proof.
  intros H Hs. pose proof (select_least _ _ _ H Hs) as Hl.
  destruct (select_some _ _ _ H) as (pre & es & post & -> & ->).
  apply Forall_concat.
  apply Forall_app in Hl. destruct Hl as [Hpre Hpost].
  inversion Hpost as [|? ? Hx Hp]; subst.
  apply Forall_app. split; [exact Hpre|].
  constructor; [|exact Hp]. inversion Hx; assumption.
Qed.

Lemma kmerge_sorted srcs :
  Forall (Sorted R) srcs -> Sorted R (kmerge srcs).
Proof.
  apply (kmerge_rect (fun srcs out => Forall (Sorted R) srcs -> Sorted R out));
    clear srcs.
  - intros srcs _ _. constructor.
  - intros srcs e srcs' H IH Hs.
    constructor; [apply IH; eapply select_keeps_sorted; eauto|].
    pose proof (select_bounds_rest _ _ _ H Hs) as Hb.
    rewrite <- (kmerge_permutation srcs') in Hb.
    destruct (kmerge srcs'); constructor.
    inversion Hb; assumption.
Qed.

End Sortedness.

(** *** The two orders *)

Lemma key_le_refl e : key_le e e.
Proof. apply (not_gt_refl key_compare). Qed.

Lemma key_le_trans e1 e2 e3 : key_le e1 e2 -> key_le e2 e3 -> key_le e1 e3.
Proof. apply (not_gt_trans key_compare). Qed.

Lemma merge_le_refl e : merge_le e e.
Proof. apply (not_gt_refl merge_compare). Qed.

Lemma merge_le_trans e1 e2 e3 :
  merge_le e1 e2 -> merge_le e2 e3 -> merge_le e1 e3.
Proof. apply (not_gt_trans merge_compare). Qed.

Lemma merge_le_total e1 e2 : merge_leb e1 e2 = false -> merge_le e2 e1.
Proof. apply (not_gt_total merge_compare). Qed.

Lemma merge_le_antisym e1 e2 :
  merge_le e1 e2 -> merge_le e2 e1 -> merge_key e1 = merge_key e2.
Proof. apply (not_gt_antisym merge_compare). Qed.

(** The tie-break rule refines the ordering key. *)
Lemma merge_le_key_le e1 e2 : merge_le e1 e2 -> key_le e1 e2.
Proof.
  unfold merge_le, merge_leb, key_le, key_leb, merge_compare. simpl.
  destruct (key_compare (ordering_key e1) (ordering_key e2)); simpl; auto.
Qed.

Lemma merge_gt_key_le e1 e2 : merge_leb e1 e2 = false -> key_le e2 e1.
Proof. intros H. apply merge_le_key_le, merge_le_total, H. Qed.

(** Within one source the two orders agree. *)
Lemma key_le_merge_le e1 e2 :
  source e1 = source e2 -> key_le e1 e2 -> merge_le e1 e2.
Proof.
  unfold merge_le, merge_leb, key_le, key_leb, merge_compare. simpl.
  intros -> H. rewrite (cmp_refl String.compare).
  destruct (key_compare (ordering_key e1) (ordering_key e2));
    simpl in *; auto.
Qed.

Lemma from_source_sorted s l :
  from_source s l -> Sorted key_le l -> Sorted merge_le l.
Proof.
  intros Hs Hl. apply Sorted_StronglySorted in Hl;
    [|intros a b c; apply key_le_trans].
  apply StronglySorted_Sorted.
  induction Hl as [|x xs Hxs IH Hx]; constructor.
  - apply IH. inversion Hs; assumption.
  - inversion Hs as [|? ? Hsx Hsxs]; subst.
    rewrite Forall_forall in *. intros y Hy.
    apply key_le_merge_le; [|apply Hx; exact Hy].
    rewrite (Hsxs y Hy). reflexivity.
Qed.

Lemma per_source_sorted srcs :
  per_source srcs -> Forall (Sorted key_le) srcs ->
  Forall (Sorted merge_le) srcs.
Proof.
  intros (ids & _ & Hids) Hs.
  induction Hids as [|s l ids srcs Hl _ IH]; constructor;
    inversion Hs; subst.
  - eapply from_source_sorted; eauto.
  - apply IH. assumption.
Qed.

Lemma kmerge_key_sorted srcs :
  Forall (Sorted key_le) srcs -> Sorted key_le (kmerge srcs).
Proof.
  apply kmerge_sorted.
  - apply key_le_refl.
  - apply key_le_trans.
  - intros e1 e2. apply merge_le_key_le.
  - apply merge_gt_key_le.
Qed.

Lemma kmerge_merge_sorted srcs :
  Forall (Sorted merge_le) srcs -> Sorted merge_le (kmerge srcs).
Proof.
  apply kmerge_sorted.
  - apply merge_le_refl.
  - apply merge_le_trans.
  - auto.
  - apply merge_le_total.
Qed.

(** *** One possible output *)

Lemma from_source_member ids srcs pre e es post :
  Forall2 from_source ids srcs ->
  srcs = (pre ++ (e :: es) :: post)%list -> In (source e) ids.
Proof.
  intros H. revert pre. induction H as [|s l ids srcs Hl _ IH]; intros pre E.
  - destruct pre; discriminate.
  - destruct pre as [|p pre]; simpl in E; injection E as -> ->.
    + left. inversion Hl; subst. reflexivity.
    + right. eapply IH. reflexivity.
Qed.

(** With one sequence per source, the source of an event tells which
    sequence it heads. *)
Lemma per_source_position ids srcs pre1 e1 es1 post1 pre2 e2 es2 post2 :
  NoDup ids -> Forall2 from_source ids srcs ->
  srcs = (pre1 ++ (e1 :: es1) :: post1)%list ->
  srcs = (pre2 ++ (e2 :: es2) :: post2)%list ->
  source e1 = source e2 ->
  pre1 = pre2 /\ e1 = e2 /\ es1 = es2 /\ post1 = post2.
Proof.
  intros Hnd H. revert pre1 pre2.
  induction H as [|s l ids srcs Hl Hrest IH]; intros pre1 pre2 E1 E2 Hsrc.
  - destruct pre1; discriminate.
  - inversion Hnd as [|? ? Hnotin Hnd']; subst.
    destruct pre1 as [|p1 pre1], pre2 as [|p2 pre2]; simpl in E1, E2.
    + injection E1 as -> ->. injection E2 as -> -> ->. auto.
    + injection E1 as -> ->. injection E2 as <- ->.
      exfalso. apply Hnotin.
      inversion Hl; subst. rewrite Hsrc.
      eapply from_source_member; eauto.
    + injection E1 as <- ->. injection E2 as -> E2.
      exfalso. apply Hnotin.
      inversion Hl; subst. rewrite <- Hsrc.
      eapply from_source_member; eauto.
    + injection E1 as -> ->. injection E2 as -> E2.
      destruct (IH Hnd' pre1 pre2 eq_refl E2 Hsrc) as (-> & -> & -> & ->).
      auto.
Qed.

Lemma per_source_pop pre e es post :
  per_source (pre ++ (e :: es) :: post) -> per_source (pre ++ es :: post).
Proof.
  intros (ids & Hnd & H). exists ids. split; [exact Hnd|].
  apply Forall2_app_inv_r in H.
  destruct H as (ids1 & ids2 & H1 & H2 & ->).
  inversion H2 as [|s ? ids2' ? Hl Hrest]; subst.
  apply Forall2_app; [exact H1|].
  constructor; [|exact Hrest]. inversion Hl; assumption.
Qed.

Lemma sorted_head_below (R : LogEvent -> LogEvent -> Prop) x xs y :
  (forall a, R a a) -> (forall a b c, R a b -> R b c -> R a c) ->
  Sorted R (x :: xs) -> In y (x :: xs) -> R x y.
Proof.
  intros Hr Ht Hs Hy.
  pose proof (sorted_head_least R Hr Ht x xs Hs) as Hall.
  rewrite Forall_forall in Hall. apply Hall. exact Hy.
Qed.

Lemma interleaving_unique srcs out1 out2 :
  per_source srcs ->
  Interleaving srcs out1 -> Sorted merge_le out1 ->
  Interleaving srcs out2 -> Sorted merge_le out2 ->
  out1 = out2.
Proof.
  intros Hps H1. revert out2 Hps.
  induction H1 as [srcs Hnil|pre e es post out H1 IH];
    intros out2 Hps Hs1 H2 Hs2.
  - apply interleaving_permutation in H2.
    rewrite concat_all_nil in H2 by exact Hnil.
    symmetry. apply Permutation_nil. symmetry. exact H2.
  - pose proof (interleaving_permutation _ _
                  (interleaving_step pre e es post out H1)) as P1.
    pose proof (interleaving_permutation _ _ H2) as P2.
    inversion H2 as [? Hnil|pre2 e2 es2 post2 out2' H2' E]; subst.
    + exfalso. rewrite Forall_forall in Hnil.
      specialize (Hnil (e :: es)). rewrite in_app_iff in Hnil.
      discriminate Hnil. right. left. reflexivity.
    + assert (Hin2 : In e2 (e :: out)).
      { eapply Permutation_in; [symmetry; exact P1|].
        eapply Permutation_in; [exact P2|]. left. reflexivity. }
      assert (Hin1 : In e (e2 :: out2')).
      { eapply Permutation_in; [symmetry; exact P2|].
        eapply Permutation_in; [exact P1|]. left. reflexivity. }
      assert (Hk : merge_key e = merge_key e2).
      { apply merge_le_antisym.
        - eapply (sorted_head_below merge_le); eauto using merge_le_refl, merge_le_trans.
        - eapply (sorted_head_below merge_le); eauto using merge_le_refl, merge_le_trans. }
      assert (Hsrc : source e = source e2).
      { unfold merge_key in Hk. congruence. }
      destruct Hps as (ids & Hnd & Hids).
      destruct (per_source_position _ _ _ _ _ _ _ _ _ _ Hnd Hids eq_refl
                  (eq_sym E) Hsrc) as (<- & <- & <- & <-).
      f_equal. apply IH.
      * eapply per_source_pop. exists ids. split; eassumption.
      * inversion Hs1; assumption.
      * exact H2'.
      * inversion Hs2; assumption.
Qed.

(** An interleaving does not depend on the order the sequences are
    listed in. *)
Lemma interleaving_permuted srcs srcs' out :
  Interleaving srcs out -> Permutation srcs srcs' -> Interleaving srcs' out.
Proof.
  intros H. revert srcs'.
  induction H as [srcs Hnil|pre e es post out H IH]; intros srcs' P.
  - constructor. eapply Permutation_Forall; eauto.
  - symmetry in P.
    destruct (Permutation_vs_elt_inv _ _ _ P) as (pre' & post' & ->).
    apply Permutation_app_inv in P.
    constructor. apply IH.
    apply Permutation_elt. symmetry. exact P.
Qed.

Lemma kmerge_order_independent srcs srcs' :
  per_source srcs -> Forall (Sorted key_le) srcs ->
  Permutation srcs srcs' -> kmerge srcs' = kmerge srcs.
Proof.
  intros Hps Hs P.
  pose proof (per_source_sorted _ Hps Hs) as Hm.
  apply (interleaving_unique srcs); auto.
  - eapply interleaving_permuted; [apply kmerge_interleaving|].
    symmetry. exact P.
  - apply kmerge_merge_sorted. eapply Permutation_Forall; eauto.
  - apply kmerge_interleaving.
  - apply kmerge_merge_sorted. exact Hm.
Qed.

(** C1. Per-source sequences sorted by ordering key merge into an output
    sorted by ordering key that interleaves them, each front to back, and
    so is a permutation of their events.  With one sequence per source the
    output is sorted under the tie-break rule (timestamp, de-dup key,
    source), it is the only such interleaving, and it is the same in
    whatever order the sequences are handed to the merge. *)
Theorem merge_sorted_stable_deterministic srcs
    (Hsorted : Forall (Sorted key_le) srcs) :
  Sorted key_le (kmerge srcs) /\
  Interleaving srcs (kmerge srcs) /\
  Permutation (kmerge srcs) (concat srcs) /\
  (per_source srcs ->
     Sorted merge_le (kmerge srcs) /\
     (forall out, Interleaving srcs out -> Sorted merge_le out ->
                  out = kmerge srcs) /\
     (forall srcs', Permutation srcs srcs' -> kmerge srcs' = kmerge srcs)).
Proof.
  split; [apply kmerge_key_sorted; exact Hsorted|].
  split; [apply kmerge_interleaving|].
  split; [apply kmerge_permutation|].
  intros Hps. pose proof (per_source_sorted _ Hps Hsorted) as Hm.
  split; [apply kmerge_merge_sorted; exact Hm|]. split.
  - intros out Hi Ho. apply (interleaving_unique srcs); auto.
    + apply kmerge_interleaving.
    + apply kmerge_merge_sorted. exact Hm.
  - intros srcs'. apply kmerge_order_independent; assumption.
Qed.

Lemma merge_sorted_stable_deterministic_witness :
  Sorted key_le (kmerge Samples.scenario3) /\
  kmerge (rev Samples.scenario3) = kmerge Samples.scenario3.
Proof.
  assert (Hsorted : Forall (Sorted key_le) Samples.scenario3).
  { repeat constructor; vm_compute; reflexivity. }
  destruct (merge_sorted_stable_deterministic Samples.scenario3 Hsorted)
    as (Hk & _ & _ & Hps).
  split; [exact Hk|].
  apply Hps.
  - exists ["src1"; "src2"]. split.
    + repeat constructor; simpl; intuition discriminate.
    + repeat constructor.
  - apply Permutation_rev.
Defined.

(** Scenario 3: t=1 (src1), t=2 (src2), then the two events at t=3 in the
    order of their de-dup keys. *)
Example scenario3_order :
  map (fun e => (timestamp e, source e)) (kmerge Samples.scenario3) =
    [(1, "src1"); (2, "src2"); (3, "src1"); (3, "src2")]%Z.
Proof. reflexivity. Qed.

End MergeFacts.

(** ** Window mode *)

Section WindowFacts.

Import Engine.

Variable matches : string -> RawEvent -> bool.

(** C2. What a window load emits is, event for event, what the sources
    fetched: the two are permutations of each other, every de-dup key occurs
    as often in the output as in the fetched sequences, and de-dup keys that
    are distinct among the fetched events stay distinct in the output. *)
Theorem load_window_exactly_once (svc : Service) (sources : list string)
    (w : TimeWindow) (filter_pattern : option string) :
  Permutation
    (fst (LoadWindow matches svc sources w filter_pattern))
    (concat (map (fun src => FetchWindow matches svc src w filter_pattern)
                 sources)) /\
  (forall k,
     count_occ string_dec
       (map dedup_key (fst (LoadWindow matches svc sources w filter_pattern)))
       k =
     count_occ string_dec
       (map dedup_key
          (concat (map (fun src => FetchWindow matches svc src w filter_pattern)
                       sources)))
       k) /\
  (forall k,
     In k (map dedup_key
             (fst (LoadWindow matches svc sources w filter_pattern))) <->
     In k (map dedup_key
             (concat (map (fun src => FetchWindow matches svc src w
                                        filter_pattern) sources)))) /\
  (NoDup (map dedup_key
            (concat (map (fun src => FetchWindow matches svc src w
                                       filter_pattern) sources))) ->
   NoDup (map dedup_key
            (fst (LoadWindow matches svc sources w filter_pattern)))).
Proof.
  unfold LoadWindow. simpl.
  set (fetched := map _ sources).
  pose proof (kmerge_permutation fetched) as P.
  pose proof (Permutation_map dedup_key P) as Pk.
  split; [exact P|]. split; [|split].
  - intros k. revert k. apply Permutation_count_occ. exact Pk.
  - intros k. split; apply Permutation_in; [|symmetry]; exact Pk.
  - apply Permutation_NoDup. symmetry. exact Pk.
Qed.

(** The sequences a window load merges are one per source when the sources
    are distinct. *)
Lemma fetched_per_source svc sources w filter_pattern :
  NoDup sources ->
  per_source (map (fun src => FetchWindow matches svc src w filter_pattern)
                  sources).
Proof.
  intros Hnd. exists sources. split; [exact Hnd|].
  clear Hnd. induction sources as [|src rest IH]; simpl; constructor.
  - unfold from_source, FetchWindow. apply Forall_map.
    apply Forall_forall. reflexivity.
  - exact IH.
Qed.

Lemma strongly_sorted_filter {A} (R : A -> A -> Prop) (keep : A -> bool) l :
  StronglySorted R l -> StronglySorted R (filter keep l).
Proof.
  induction 1 as [|x xs Hxs IH Hx]; simpl; [constructor|].
  destruct (keep x); [|exact IH].
  constructor; [exact IH|].
  rewrite Forall_forall in *. intros y Hy.
  apply filter_In in Hy. apply Hx. tauto.
Qed.

Lemma strongly_sorted_map {A B} (R : B -> B -> Prop) (g : A -> B) l :
  StronglySorted (fun a b => R (g a) (g b)) l -> StronglySorted R (map g l).
Proof.
  induction 1 as [|x xs Hxs IH Hx]; simpl; constructor; [exact IH|].
  apply Forall_map. exact Hx.
Qed.

(** A service that holds each source's events in key order yields fetched
    sequences in key order. *)
Lemma fetched_sorted svc src w filter_pattern :
  Sorted (fun r1 r2 => key_leb (raw_key r1) (raw_key r2) = true)
         (delivered (svc src)) ->
  Sorted key_le (FetchWindow matches svc src w filter_pattern).
Proof.
  intros H. apply StronglySorted_Sorted. unfold FetchWindow.
  apply strongly_sorted_map. apply strongly_sorted_filter.
  apply Sorted_StronglySorted; [|exact H].
  intros a b c. apply (not_gt_trans key_compare).
Qed.

(** End to end: distinct sources, each held in key order, load into an
    output sorted under the tie-break rule. *)
Lemma load_window_sorted svc sources w filter_pattern :
  NoDup sources ->
  (forall src,
     Sorted (fun r1 r2 => key_leb (raw_key r1) (raw_key r2) = true)
            (delivered (svc src))) ->
  Sorted merge_le (fst (LoadWindow matches svc sources w filter_pattern)).
Proof.
  intros Hnd Hs. unfold LoadWindow. simpl.
  apply kmerge_merge_sorted. apply per_source_sorted.
  - apply fetched_per_source. exact Hnd.
  - apply Forall_map. apply Forall_forall. intros src _.
    apply fetched_sorted. apply Hs.
Qed.

(** An absent or empty pattern lets every event pass. *)
Lemma passes_without_pattern r :
  passes matches None r = true /\ passes matches (Some "") r = true.
Proof. split; reflexivity. Qed.

End WindowFacts.

(** ** Tail mode *)

Section PollFacts.

Import Order Engine.

Variable matches : string -> RawEvent -> bool.

Lemma key_above_trans k c c' :
  key_leb c c' = true -> key_leb k c' = false -> key_leb k c = false.
Proof.
  intros Hc Hk. destruct (key_leb k c) eqn:E; [|reflexivity].
  unfold key_leb in *.
  rewrite (not_gt_trans key_compare _ _ _ E Hc) in Hk. discriminate.
Qed.

Lemma key_above_le c k : key_leb k c = false -> key_leb c k = true.
Proof. apply (not_gt_total key_compare). Qed.

Lemma advance_monotone returned cursor :
  key_leb cursor (snd (advance cursor returned)) = true.
Proof.
  revert cursor. induction returned as [|e rest IH]; intros cursor; simpl.
  - apply (not_gt_refl key_compare).
  - destruct (key_leb (ordering_key e) cursor) eqn:E; [apply IH|].
    specialize (IH (ordering_key e)).
    destruct (advance (ordering_key e) rest) as [out c]. simpl in *.
    eapply (not_gt_trans key_compare); [|exact IH].
    apply key_above_le. exact E.
Qed.

Lemma advance_above returned cursor e :
  In e (fst (advance cursor returned)) ->
  key_leb (ordering_key e) cursor = false.
Proof.
  revert cursor. induction returned as [|x rest IH]; intros cursor; simpl.
  - contradiction.
  - destruct (key_leb (ordering_key x) cursor) eqn:E; [apply IH|].
    specialize (IH (ordering_key x)).
    destruct (advance (ordering_key x) rest) as [out c]. simpl in *.
    intros [<-|Hin]; [exact E|].
    eapply key_above_trans; [|apply IH; exact Hin].
    apply key_above_le. exact E.
Qed.

Lemma advance_covered returned cursor e :
  In e (fst (advance cursor returned)) ->
  key_leb (ordering_key e) (snd (advance cursor returned)) = true.
Proof.
  revert cursor. induction returned as [|x rest IH]; intros cursor; simpl.
  - contradiction.
  - destruct (key_leb (ordering_key x) cursor) eqn:E; [apply IH|].
    pose proof (advance_monotone rest (ordering_key x)) as Hm.
    specialize (IH (ordering_key x)).
    destruct (advance (ordering_key x) rest) as [out c]. simpl in *.
    intros [<-|Hin]; [exact Hm|]. apply IH. exact Hin.
Qed.

Lemma rounds_monotone src f replies cursor i round :
  nth_error (poll_rounds matches src cursor f replies) i = Some round ->
  key_leb cursor (snd round) = true.
Proof.
  revert cursor i.
  induction replies as [|r later IH]; intros cursor i; simpl.
  - destruct i; discriminate.
  - destruct i as [|i]; simpl.
    + intros [= <-]. apply advance_monotone.
    + intros H. eapply (not_gt_trans key_compare); [|eapply IH; exact H].
      apply advance_monotone.
Qed.

Lemma rounds_above src f replies cursor j round e :
  nth_error (poll_rounds matches src cursor f replies) j = Some round ->
  In e (fst round) -> key_leb (ordering_key e) cursor = false.
Proof.
  revert cursor j.
  induction replies as [|r later IH]; intros cursor j; simpl.
  - destruct j; discriminate.
  - destruct j as [|j]; simpl.
    + intros [= <-]. apply advance_above.
    + intros H Hin. eapply key_above_trans; [|eapply IH; eauto].
      apply advance_monotone.
Qed.

(** C3. Over successive polls of one source, an event emitted in a later
    round lies strictly past the cursor every earlier round returned, the
    events a round emits lie at or before the cursor it returns, and so no
    event is emitted twice. *)
Theorem poll_never_reemits (src : string) (filter_pattern : option string)
    (replies : list (list RawEvent)) (cursor : Cursor)
    (i j : nat) (earlier later : list LogEvent * Cursor) (e : LogEvent)
    (Hi : nth_error (poll_rounds matches src cursor filter_pattern replies) i
          = Some earlier)
    (Hj : nth_error (poll_rounds matches src cursor filter_pattern replies) j
          = Some later)
    (Hij : (i < j)%nat)
    (He : In e (fst later)) :
  key_leb (ordering_key e) (snd earlier) = false /\
  key_leb (ordering_key e) cursor = false /\
  (forall e', In e' (fst earlier) ->
              key_leb (ordering_key e') (snd earlier) = true) /\
  ~ In e (fst earlier).
Proof.
  assert (Habove : key_leb (ordering_key e) (snd earlier) = false).
  { revert cursor i j Hi Hj Hij.
    induction replies as [|r rest IH]; intros cursor i j Hi Hj Hij.
    - destruct i; discriminate.
    - destruct j as [|j]; [lia|]. destruct i as [|i]; simpl in Hi, Hj.
      + injection Hi as <-. eapply rounds_above; eauto.
      + eapply IH; eauto. lia. }
  assert (Hcovered : forall e', In e' (fst earlier) ->
            key_leb (ordering_key e') (snd earlier) = true).
  { clear Hj Hij He Habove. revert cursor i Hi.
    induction replies as [|r rest IH]; intros cursor i Hi.
    - destruct i; discriminate.
    - destruct i as [|i]; simpl in Hi.
      + injection Hi as <-. intros e'. apply advance_covered.
      + eapply IH; eauto. }
  split; [exact Habove|]. split; [eapply rounds_above; eauto|].
  split; [exact Hcovered|].
  intros Hin. apply Hcovered in Hin. congruence.
Qed.

(** A poll on its own: nothing at or before the cursor comes out, and a
    reply with nothing new leaves the cursor where it was. *)
Lemma poll_drops_covered src cursor f returned e :
  In e (fst (Poll matches src cursor f returned)) ->
  key_leb (ordering_key e) cursor = false.
Proof. apply advance_above. Qed.

Lemma advance_nothing_new returned cursor :
  fst (advance cursor returned) = [] -> snd (advance cursor returned) = cursor.
Proof.
  induction returned as [|x rest IH]; simpl; [reflexivity|].
  destruct (key_leb (ordering_key x) cursor); [exact IH|].
  destruct (advance (ordering_key x) rest). discriminate.
Qed.

End PollFacts.

Lemma poll_never_reemits_witness :
  Engine.key_leb (Engine.ordering_key (Samples.event "src" 7 "e7")) (6%Z, "e6")
  = false.
Proof.
  refine (proj1 (poll_never_reemits Samples.contains "src" None
                   Samples.scenario4 (0%Z, "") 0 1
                   ([Samples.event "src" 5 "e5"; Samples.event "src" 6 "e6"],
                    (6%Z, "e6"))
                   ([Samples.event "src" 7 "e7"], (7%Z, "e7"))
                   (Samples.event "src" 7 "e7") _ _ _ _)).
  - reflexivity.
  - reflexivity.
  - lia.
  - simpl. left. reflexivity.
Defined.

(** Scenario 4: the second round emits only the event at t=7. *)
Example scenario4_rounds :
  map (fun round => map Engine.timestamp (fst round))
      (Engine.poll_rounds Samples.contains "src" (0%Z, "") None
         Samples.scenario4) =
    [[5; 6]; [7]]%Z.
Proof. reflexivity. Qed.

Lemma window_end_defaults_to_now_witness :
  Logs.window_ends Samples.world (Logs.trace Samples.world Samples.window_args)
  = [1700000000000%Z].
Proof.
  destruct (window_end_defaults_to_now Samples.world Samples.window_args eq_refl)
    as (_ & _ & _ & H).
  apply H; reflexivity.
Defined.

(** Scenario 1: the supported resources of the stack are discovered, the
    unsupported one is skipped.  Scenario 2: a nested name resolves to the
    resource inside the nested stack. *)
Example scenario1_discovery :
  map Resolver.physical_id (Resolver.resolve Samples.sample_stack [] true) =
    ["/aws/lambda/A"; "/aws/lambda/Leaf"].
Proof. reflexivity. Qed.

Example scenario2_nested :
  map Resolver.physical_id
      (Resolver.resolve Samples.sample_stack ["Nested/Leaf"] true) =
    ["/aws/lambda/Leaf"].
Proof. reflexivity. Qed.

Lemma discovery_iff_no_raw_sources_witness :
  Logs.sources_requested Samples.world
    (Logs.trace Samples.world Samples.window_args) =
    [([], ["/aws/custom/group"])].
Proof.
  destruct (discovery_iff_no_raw_sources Samples.world Samples.window_args)
    as (r & flag & _ & _ & Hsources & Hcontract).
  rewrite Hsources. f_equal. f_equal.
  specialize (Hcontract Samples.sample_stack (fun x => x)).
  rewrite map_id in Hcontract. apply Hcontract.
  - intros rp cp sn ns b. apply map_id.
  - discriminate.
Defined.

(** Scenario 5: a raw log group beside a stack with discoverable resources;
    the puller is built for the log group alone. *)
Example scenario5_sources :
  Logs.sources_requested Samples.world
    (Logs.trace Samples.world Samples.window_args) =
    [([], ["/aws/custom/group"])].
Proof. reflexivity. Qed.

(** ** The filter pattern *)

Section FilterFacts.

Import Logs Engine.

Variable W : Collaborators.
Variable matches : string -> RawEvent -> bool.

(** C8. The filter pattern of the command line is what the puller
    construction and the streaming call receive, and a puller given an
    absent or empty pattern keeps every event of the window. *)
Theorem filter_passed_unmodified (a : Args) :
  filters_passed W (trace W a) = [filter_pattern a; filter_pattern a] /\
  (forall r, passes matches None r = true /\
             passes matches (Some "") r = true) /\
  (forall svc src w,
     FetchWindow matches svc src w None =
       map (stamp src) (filter (in_window w) (delivered (svc src))) /\
     FetchWindow matches svc src w (Some "") =
       map (stamp src) (filter (in_window w) (delivered (svc src)))).
Proof.
  split; [|split].
  - unfold trace, do_cli; cbn.
    destruct (Py.truthy_seq (names a) && (length (names a) <=? 1)%nat);
      destruct (parse_time W (end_time a) "end-time");
      destruct (tailing a); reflexivity.
  - apply passes_without_pattern.
  - intros svc src w. unfold FetchWindow.
    split; f_equal; apply filter_ext; intros r; simpl;
      apply Bool.andb_true_r.
Qed.

End FilterFacts.

(** ** The output selector *)

Section EnumFacts.

Import Logs.

Variable W : Collaborators.
Variable member : string -> bool.

(** What an invocation does, by what the selector comes to: with an option
    selected it runs as [Logs.do_cli] describes and builds the puller with
    that option; with the lookup raising it ends after the resolver query. *)
Lemma enum_run_cases (a : Args) :
  match Enum.selected W member (output a) with
  | Some o =>
      Enum.outcome W member a = Enum.returned /\
      Enum.trace W member a = trace W a /\
      outputs_requested W (Enum.trace W member a) = [o]
  | None =>
      Enum.outcome W member a = Enum.raised_ValueError /\
      outputs_requested W (Enum.trace W member a) = [] /\
      constructed W (Enum.trace W member a) = [] /\
      mode_calls W (Enum.trace W member a) = [] /\
      resolver_requests W (Enum.trace W member a) =
        resolver_requests W (trace W a)
  end.
Proof.
  unfold Enum.outcome, Enum.trace, Enum.do_cli, trace, do_cli, Enum.selected,
    Enum.lookup.
  destruct (output a) as [value|]; cbn;
    [destruct (value =? "") eqn:Ev; cbn; [|destruct (member value); cbn]|];
    destruct (Py.truthy_seq (names a) && (length (names a) <=? 1)%nat);
    destruct (parse_time W (end_time a) "end-time");
    destruct (tailing a); cbn; repeat split; reflexivity.
Qed.

(** C9. Without an output selector, or with the empty one, the puller is
    built with the text option.  A selector that is a value of the enum
    builds it with the option of that value.  Any other selector makes the
    lookup raise ValueError: the invocation ends after the resolver query,
    no puller is built and nothing is streamed.  Whenever the lookup
    returns, the calls are those of [Logs.do_cli]. *)
Theorem output_option_or_value_error (a : Args) :
  (output a = None \/ output a = Some "" ->
   Enum.outcome W member a = Enum.returned /\
   outputs_requested W (Enum.trace W member a) = [OutputOption_text W]) /\
  (forall s, output a = Some s -> s <> "" -> member s = true ->
     Enum.outcome W member a = Enum.returned /\
     outputs_requested W (Enum.trace W member a) = [OutputOption_of W s]) /\
  (forall s, output a = Some s -> s <> "" -> member s = false ->
     Enum.outcome W member a = Enum.raised_ValueError /\
     outputs_requested W (Enum.trace W member a) = [] /\
     constructed W (Enum.trace W member a) = [] /\
     mode_calls W (Enum.trace W member a) = [] /\
     resolver_requests W (Enum.trace W member a) =
       resolver_requests W (trace W a)) /\
  (Enum.outcome W member a = Enum.returned ->
   Enum.trace W member a = trace W a).
Proof.
  pose proof (enum_run_cases a) as H.
  split; [|split; [|split]].
  - intros [Ho|Ho]; rewrite Ho in H; cbn in H; tauto.
  - intros s Ho Hs Hm. rewrite Ho in H. cbn in H.
    apply String.eqb_neq in Hs. unfold Enum.lookup in H.
    rewrite Hs, Hm in H. cbn in H. tauto.
  - intros s Ho Hs Hm. rewrite Ho in H. cbn in H.
    apply String.eqb_neq in Hs. unfold Enum.lookup in H.
    rewrite Hs, Hm in H. cbn in H. exact H.
  - destruct (Enum.selected W member (output a)).
    + tauto.
    + destruct H as [-> _]. discriminate.
Qed.

End EnumFacts.

(** With text and json as the values of the enum, the selector xml builds
    no puller: the invocation ends in ValueError after the resolver query. *)
Lemma output_selector_counterexample :
  Logs.output (EnumSamples.with_output "xml") = Some "xml" /\
  Enum.outcome Samples.world EnumSamples.text_or_json
    (EnumSamples.with_output "xml") = Enum.raised_ValueError /\
  Logs.outputs_requested Samples.world
    (Enum.trace Samples.world EnumSamples.text_or_json
       (EnumSamples.with_output "xml")) = [] /\
  ~ In (Logs.OutputOption_of Samples.world "xml")
       (Logs.outputs_requested Samples.world
          (Enum.trace Samples.world EnumSamples.text_or_json
             (EnumSamples.with_output "xml"))).
Proof.
  repeat split; try reflexivity. intros H. exact H.
Qed.

(** The selector json, a value of the enum, builds the puller with it. *)
Lemma output_option_or_value_error_witness :
  Logs.outputs_requested Samples.world
    (Enum.trace Samples.world EnumSamples.text_or_json
       (EnumSamples.with_output "json")) = ["json"].
Proof.
  destruct (output_option_or_value_error Samples.world
              EnumSamples.text_or_json (EnumSamples.with_output "json"))
    as (_ & H & _).
  apply (H "json"); [reflexivity|discriminate|reflexivity].
Defined.

(** ** More about the command driver *)

Section CommandFacts.

Import Logs LogViews.

Variable W : Collaborators.

Ltac cases a :=
  unfold trace, do_cli; cbn;
  destruct (Py.truthy_seq (names a) && (length (names a) <=? 1)%nat);
  destruct (parse_time W (end_time a) "end-time");
  destruct (tailing a); cbn.

(** X1. Both times go through [parse_time] once, the start first, under the
    property names start-time and end-time.  The streaming call of either
    mode receives the parsed start as it is: when the parse yields nothing,
    nothing is what the call gets, no default takes its place. *)
Theorem start_time_passed_as_parsed (a : Args) :
  parse_requests W (trace W a) =
    [(start_time a, "start-time"); (end_time a, "end-time")] /\
  starts W (trace W a) = [parse_time W (start_time a) "start-time"] /\
  (parse_time W (start_time a) "start-time" = None ->
   starts W (trace W a) = [None]).
Proof.
  assert (H : starts W (trace W a) = [parse_time W (start_time a) "start-time"]).
  { cases a; reflexivity. }
  split; [cases a; reflexivity|]. split; [exact H|].
  intros Hnone. rewrite H, Hnone. reflexivity.
Qed.

(** X2. The end time is parsed in tail mode as in window mode, and the clock
    is read once when the parse yields nothing and not at all otherwise,
    whatever the mode. *)
Theorem clock_read_follows_end_time (a : Args) :
  In (call_parse_time W (end_time a) "end-time") (trace W a) /\
  clock_reads W (trace W a) =
    match parse_time W (end_time a) "end-time" with
    | Some _ => 0%nat
    | None => 1%nat
    end /\
  clock_reads W (trace W (set_tailing a true)) =
    clock_reads W (trace W (set_tailing a false)).
Proof.
  split; [|split].
  - cases a; intuition.
  - cases a; reflexivity.
  - unfold trace, do_cli; cbn.
    destruct (Py.truthy_seq (names a) && (length (names a) <=? 1)%nat);
      destruct (parse_time W (end_time a) "end-time"); reflexivity.
Qed.

(** X3. Region and profile go to both boto providers, once each; the
    resolver is built from the two providers they return, with the stack name
    and all the names as given; the puller is built with the same client
    provider and with the tracing flag as given. *)
Theorem options_reach_collaborators (a : Args) :
  client_requests W (trace W a) = [(region a, profile a)] /\
  resource_requests W (trace W a) = [(region a, profile a)] /\
  resolver_constructions W (trace W a) =
    [(get_boto_resource_provider_with_config W (region a) (profile a),
      get_boto_client_provider_with_config W (region a) (profile a),
      stack_name a, names a)] /\
  puller_settings W (trace W a) =
    [(get_boto_client_provider_with_config W (region a) (profile a),
      include_tracing a)].
Proof.
  repeat split; cases a; reflexivity.
Qed.

(** X4. Streaming starts last among the preparations: the log is a run of
    setup calls, then the resolver query, then the puller construction, then
    the one streaming call, and after it only the suggestion prints, of which
    window mode has none. *)
Theorem streaming_follows_construction (a : Args) :
  exists setup query construction mode after,
    trace W a = (setup ++ [query; construction; mode] ++ after)%list /\
    forallb (is_setup W) setup = true /\
    resolver_requests W [query] <> [] /\
    constructed W [construction] <> [] /\
    is_mode_call W mode = true /\
    forallb (is_suggestion W) after = true /\
    (tailing a = false -> after = []).
Proof.
  cases a.
  all: match goal with
       | |- context [call_recommendation] =>
           match goal with
           | |- exists s q c m r, ?l = _ /\ _ =>
               exists (firstn (length l - 5) l)
           end
       | |- exists s q c m r, ?l = _ /\ _ =>
           exists (firstn (length l - 3) l)
       end; cbn; do 4 eexists;
       (split; [reflexivity|]); cbn;
       repeat split; try discriminate; try reflexivity.
Qed.

(** X5. The follow-up suggestions are printed after tailing and only then:
    one recommendation built from two commands, printed in yellow.  The first
    command carries the stack name, and reads "--stack-name None" when no
    stack name was given. *)
Theorem suggestions_follow_tailing (a : Args) :
  recommendations W (trace W a) =
    (if tailing a then [suggested (stack_name a)] else []) /\
  styled W (trace W a) =
    (if tailing a
     then [(generate_next_command_recommendation W (suggested (stack_name a)),
            "yellow")]
     else []) /\
  (stack_name a = None ->
   map snd (suggested (stack_name a)) =
     ["sam logs --stack-name None --tail --include-traces";
      "sam traces --tail"]).
Proof.
  split; [|split].
  - cases a; reflexivity.
  - cases a; reflexivity.
  - intros ->. reflexivity.
Qed.

(** X6. The tail flag decides nothing before the streaming call: with the
    flag set or cleared, an invocation makes the same calls up to and
    including the puller construction. *)
Theorem tail_flag_decides_only_the_end (a : Args) :
  exists shared tail_call load_call printing,
    trace W (set_tailing a true) = (shared ++ tail_call :: printing)%list /\
    trace W (set_tailing a false) = (shared ++ [load_call])%list /\
    mode_calls W shared = [] /\
    constructed W shared =
      constructed W (trace W a) /\
    mode_calls W [tail_call; load_call] = [tail_call; load_call] /\
    forallb (is_suggestion W) printing = true.
Proof.
  unfold trace, do_cli; cbn.
  destruct (Py.truthy_seq (names a) && (length (names a) <=? 1)%nat);
    destruct (parse_time W (end_time a) "end-time");
    destruct (tailing a); cbn;
    match goal with
    | |- exists s t l p, _ /\ ?r = _ /\ _ =>
        exists (removelast r)
    end; cbn; do 3 eexists;
    (split; [reflexivity|]); (split; [reflexivity|]);
    repeat split; reflexivity.
Qed.

End CommandFacts.

Section CliFacts.

Import Logs LogViews Cli.

Variable W : Collaborators.
Variable member : string -> bool.

(** X7. [cli] hands its options to [do_cli] in the places [do_cli] expects
    them, although it declares the output selector before the log groups:
    the times, region and profile of the context, stack name, names and log
    groups reach the parser, the providers and the resolver; the selector is
    the value looked up in the enum; and when the lookup returns, the log
    groups, the filter and the tracing flag reach the puller. *)
Theorem cli_forwards_options (ctx : Context)
    (name : list string) (stack filter : option string)
    (tail include_traces : bool) (start_time end_time output : option string)
    (cw_log_group : list string) (config_file config_env : option string) :
  let run := cli W member ctx name stack filter tail include_traces
               start_time end_time output cw_log_group
               config_file config_env in
  parse_requests W (execState run []) =
    [(start_time, "start-time"); (end_time, "end-time")] /\
  client_requests W (execState run []) =
    [(ctx_region ctx, ctx_profile ctx)] /\
  resource_requests W (execState run []) =
    [(ctx_region ctx, ctx_profile ctx)] /\
  map (fun c => (snd (fst c), snd c)) (resolver_constructions W (execState run []))
    = [(stack, name)] /\
  map snd (resolver_requests W (execState run [])) =
    [negb (Py.truthy_seq cw_log_group)] /\
  match Enum.selected W member output with
  | Some o =>
      evalState run [] = Enum.returned /\
      map snd (sources_requested W (execState run [])) = [cw_log_group] /\
      outputs_requested W (execState run []) = [o] /\
      filters_passed W (execState run []) = [filter; filter] /\
      map snd (puller_settings W (execState run [])) = [include_traces]
  | None =>
      evalState run [] = Enum.raised_ValueError /\
      sources_requested W (execState run []) = []
  end.
Proof.
  cbv zeta. unfold cli, Enum.do_cli. cbn [Logs.output].
  destruct (Enum.selected W member output); cbn;
    destruct (Py.truthy_seq name && (length name <=? 1)%nat);
    destruct (parse_time W end_time "end-time");
    destruct tail; cbn; repeat split; reflexivity.
Qed.

End CliFacts.

(** ** The test harness *)

Section HarnessFacts.

Import Harness.

Variable S : System.

(** X8. Cleaning the generated directories tries all three removals in
    order whatever the first two do, leaves the class attributes alone, and
    ends normally unless removing the lock file raises something other than
    FileNotFoundError or PermissionError, which it lets through. *)
Theorem cleanup_attempts_every_removal (st : State S) (pd : Path S)
    (Hpd : project_directory (cls S st) = Some pd) :
  _remove_generated_directories S st =
    ({| cls := cls S st;
        log := (log S st ++
                [shutil_rmtree (joinpath S pd ".aws-sam-iacs") true;
                 shutil_rmtree (joinpath S pd ".terraform") true;
                 os_remove (joinpath S pd ".terraform.lock.hcl")])%list |},
     match raises S
             (log S st ++
              [shutil_rmtree (joinpath S pd ".aws-sam-iacs") true;
               shutil_rmtree (joinpath S pd ".terraform") true])%list
             (os_remove (joinpath S pd ".terraform.lock.hcl")) with
     | None | Some FileNotFoundError | Some PermissionError => inr tt
     | Some e => inl e
     end).
Proof.
  unfold _remove_generated_directories, rmtree_ignoring_errors, try_except,
    attribute, perform.
  cbn. rewrite Hpd. cbn.
  destruct (raises S (log S st) _); cbn; rewrite Hpd; cbn;
    destruct (raises S (log S st ++ [_])%list _); cbn; rewrite Hpd; cbn;
    rewrite <- !app_assoc; cbn;
    destruct (raises S _ _) as [[]|]; reflexivity.
Qed.

Lemma bind_run {A B} (c : Test S A) (k : A -> Test S B) (st : State S) :
  bind c k st =
    match c st with
    | (st', inl e) => (st', inl e)
    | (st', inr x) => k x st'
    end.
Proof. reflexivity. Qed.

Lemma run_command_in_directory (st : State S) integ app command check :
  parents S (this_file S) 2 = Some integ ->
  terraform_application (cls S st) = Some app ->
  _run_command S command check st =
    run S command (application_directory S integ app) check
      run_command_timeout st.
Proof.
  intros Hi Ha. unfold _run_command, get_integ_dir, read_application,
    join_optional, application_directory.
  rewrite Hi. cbn. rewrite Ha. reflexivity.
Qed.

Lemma run_keeps_class (st : State S) command cwd check timeout :
  cls S (fst (run S command cwd check timeout st)) = cls S st.
Proof.
  unfold run. destruct (raises S _ _); [reflexivity|].
  destruct (check && _); reflexivity.
Qed.

Lemma run_command_keeps_class (st : State S) command check :
  cls S (fst (_run_command S command check st)) = cls S st.
Proof.
  unfold _run_command, get_integ_dir, read_application, join_optional.
  destruct (parents S (this_file S) 2); cbn; [|reflexivity].
  destruct (terraform_application (cls S st)); cbn; [|reflexivity].
  apply run_keeps_class.
Qed.

(** X9. The set-up of the apply classes stops at the first command that
    fails: when terraform init raises, terraform apply is not run, and when
    either raises the base set-up is not reached, no class attribute is
    assigned and the exception goes to the caller.  When both return, the
    base set-up runs from the state they leave. *)
Theorem apply_waits_for_init (st : State S) :
  let init := _run_command S ["terraform"; "init"; "-input=false"] true st in
  let apply :=
    _run_command S ["terraform"; "apply"; "-auto-approve"; "-input=false"]
      true (fst init) in
  (forall e, snd init = inl e ->
     Apply_setUpClass S st = (fst init, inl e) /\
     cls S (fst (Apply_setUpClass S st)) = cls S st) /\
  (forall p e, snd init = inr p -> snd apply = inl e ->
     Apply_setUpClass S st = (fst apply, inl e) /\
     cls S (fst (Apply_setUpClass S st)) = cls S st) /\
  (forall p q, snd init = inr p -> snd apply = inr q ->
     Apply_setUpClass S st = Base_setUpClass S (fst apply)).
Proof.
  cbv zeta. unfold Apply_setUpClass. rewrite bind_run.
  pose proof (run_command_keeps_class st
                ["terraform"; "init"; "-input=false"] true) as Hc1.
  destruct (_run_command S ["terraform"; "init"; "-input=false"] true st)
    as [st1 [e1|p1]]; simpl fst in *; simpl snd in *.
  - split; [|split]; [|intros; congruence..].
    intros e H. injection H as ->. split; [reflexivity|exact Hc1].
  - rewrite bind_run.
    pose proof (run_command_keeps_class st1
                  ["terraform"; "apply"; "-auto-approve"; "-input=false"] true)
      as Hc2.
    destruct (_run_command S
                ["terraform"; "apply"; "-auto-approve"; "-input=false"]
                true st1) as [st2 [e2|p2]]; simpl fst in *; simpl snd in *.
    + split; [|split]; [intros; congruence| |intros; congruence].
      intros p e _ H. injection H as ->. split; [reflexivity|congruence].
    + split; [|split]; [intros; congruence|intros; congruence|].
      intros; reflexivity.
Qed.

(** X10. In the tear-down of the apply classes a terraform destroy that
    exits with a non-zero code, or raises CalledProcessError, does not stop
    the clean-up: the state files and the base tear-down follow.  Any other
    exception of the command ends the tear-down there. *)
Theorem failed_destroy_does_not_stop_teardown (st : State S)
    (integ : Path S) (app : string)
    (Hinteg : parents S (this_file S) 2 = Some integ)
    (Happ : terraform_application (cls S st) = Some app) :
  let destroy :=
    subprocess_run
      ["terraform"; "apply"; "-destroy"; "-auto-approve"; "-input=false"]
      (application_directory S integ app) true run_command_timeout in
  let next := Build_State S (cls S st) (log S st ++ [destroy])%list in
  (raises S (log S st) destroy = None ->
   Apply_tearDownClass S st =
     (remove_state_files S ;; Base_tearDownClass S) next) /\
  (raises S (log S st) destroy = Some CalledProcessError ->
   Apply_tearDownClass S st =
     (remove_state_files S ;; Base_tearDownClass S) next) /\
  (forall e, raises S (log S st) destroy = Some e ->
     e <> CalledProcessError ->
     Apply_tearDownClass S st = (next, inl e)).
Proof.
  cbv zeta. unfold Apply_tearDownClass. rewrite bind_run.
  unfold destroy_quietly, try_except. rewrite bind_run.
  rewrite (run_command_in_directory st integ app _ _ Hinteg Happ).
  unfold run.
  destruct (raises S (log S st) _) as [e|]; [|].
  - split; [intros; congruence|]. split.
    + intros H. injection H as ->. reflexivity.
    + intros e' H Hne. injection H as ->.
      destruct e'; try reflexivity. contradiction.
  - split; [|split; intros; congruence].
    intros _. cbn.
    destruct (returncode _ =? 0)%Z; reflexivity.
Qed.

(** X11. Removing the state files stops at the first failure: when the
    state file cannot be removed, its backup is not tried.  FileNotFoundError
    and PermissionError end the step quietly, anything else is let
    through. *)
Theorem backup_skipped_when_state_file_stays (st : State S) (pd : Path S)
    (Hpd : project_directory (cls S st) = Some pd) :
  let state_file := os_remove (joinpath S pd "terraform.tfstate") in
  let backup := os_remove (joinpath S pd "terraform.tfstate.backup") in
  remove_state_files S st =
    match raises S (log S st) state_file with
    | Some e =>
        (Build_State S (cls S st) (log S st ++ [state_file])%list,
         match e with
         | FileNotFoundError | PermissionError => inr tt
         | _ => inl e
         end)
    | None =>
        (Build_State S (cls S st) (log S st ++ [state_file; backup])%list,
         match raises S (log S st ++ [state_file])%list backup with
         | None | Some FileNotFoundError | Some PermissionError => inr tt
         | Some e => inl e
         end)
    end.
Proof.
  cbv zeta. unfold remove_state_files, try_except, attribute, perform.
  cbn. rewrite Hpd. cbn.
  destruct (raises S (log S st) _) as [e|]; cbn.
  - destruct e; reflexivity.
  - rewrite Hpd. cbn. rewrite <- app_assoc. cbn.
    destruct (raises S _ _) as [[]|]; reflexivity.
Qed.

(** X12. The base tear-down stops the server first.  When that raises,
    the generated directories are left in place; when it returns, all three
    removals are tried. *)
Theorem cleanup_waits_for_server_shutdown (st : State S) (pd : Path S)
    (Hpd : project_directory (cls S st) = Some pd) :
  (forall e, raises S (log S st) super_tearDownClass = Some e ->
     Base_tearDownClass S st =
       (Build_State S (cls S st) (log S st ++ [super_tearDownClass])%list,
        inl e)) /\
  (raises S (log S st) super_tearDownClass = None ->
   log S (fst (Base_tearDownClass S st)) =
     (log S st ++
      [super_tearDownClass;
       shutil_rmtree (joinpath S pd ".aws-sam-iacs") true;
       shutil_rmtree (joinpath S pd ".terraform") true;
       os_remove (joinpath S pd ".terraform.lock.hcl")])%list).
Proof.
  unfold Base_tearDownClass. rewrite bind_run. unfold perform. split.
  - intros e ->. reflexivity.
  - intros ->.
    unfold _remove_generated_directories, rmtree_ignoring_errors, try_except,
      attribute, perform.
    cbn. rewrite Hpd. cbn.
    destruct (raises S _ _); cbn; rewrite Hpd; cbn;
      destruct (raises S _ _); cbn; rewrite Hpd; cbn;
      rewrite <- !app_assoc; cbn;
      destruct (raises S _ _) as [[]|]; reflexivity.
Qed.

(** X13. Once the directories are assigned, the project directory is
    testdata/start_api/terraform/<application> under the integration
    directory, and it is the directory every later command runs in. *)
Theorem commands_run_in_project_directory (st st' : State S)
    (Hdone : assign_directories S st = (st', inr tt)) :
  exists integ app,
    parents S (this_file S) 2 = Some integ /\
    terraform_application (cls S st) = Some app /\
    test_data_path (cls S st') =
      Some (joinpath S (joinpath S integ "testdata") "start_api") /\
    project_directory (cls S st') = Some (application_directory S integ app) /\
    log S st' = log S st /\
    (forall later command check,
       cls S later = cls S st' ->
       _run_command S command check later =
         run S command (application_directory S integ app) check
           run_command_timeout later).
Proof.
  unfold assign_directories, get_integ_dir, read_application, join_optional,
    attribute, assign in Hdone.
  destruct (parents S (this_file S) 2) as [integ|] eqn:Hi; cbn in Hdone;
    [|discriminate].
  destruct (terraform_application (cls S st)) as [app|] eqn:Ha; cbn in Hdone;
    [|discriminate].
  injection Hdone as <-. exists integ, app. cbn.
  repeat split; try reflexivity; try assumption.
  intros later command check Hc.
  apply run_command_in_directory; [exact Hi|].
  rewrite Hc. cbn. exact Ha.
Qed.


(** X15. Setting up a limitation class calls [get_sam_command], then
    [random_port], and nothing else outside the file: the set-up of the base
    class is never reached.  When either call raises, the exception goes to
    the caller with no attribute assigned; when both return, the command is
    the base command followed by -p and the port in decimal. *)
Theorem limitation_setup_calls_only_helpers (st : State S) :
  (forall e, raises S (log S st) call_get_sam_command = Some e ->
     Limitations_setUpClass S st =
       (Build_State S (cls S st) (log S st ++ [call_get_sam_command])%list,
        inl e)) /\
  (forall e, raises S (log S st) call_get_sam_command = None ->
     raises S (log S st ++ [call_get_sam_command])%list call_random_port
       = Some e ->
     Limitations_setUpClass S st =
       (Build_State S (cls S st)
          (log S st ++ [call_get_sam_command; call_random_port])%list,
        inl e)) /\
  (raises S (log S st) call_get_sam_command = None ->
   raises S (log S st ++ [call_get_sam_command])%list call_random_port
     = None ->
   log S (fst (Limitations_setUpClass S st)) =
     (log S st ++ [call_get_sam_command; call_random_port])%list /\
   command_list (cls S (fst (Limitations_setUpClass S st))) =
     Some (base_command S ++ ["-p"; str_int (random_port S)])%list).
Proof.
  unfold Limitations_setUpClass, assign_directories, get_integ_dir,
    read_application, join_optional, attribute, assign, perform.
  cbn.
  split; [|split].
  - intros e ->. reflexivity.
  - intros e -> H. cbn. rewrite H. rewrite <- app_assoc. reflexivity.
  - intros -> H. cbn. rewrite H. cbn.
    destruct (parents S (this_file S) 2); cbn;
      [destruct (terraform_application (cls S st)); cbn|];
      rewrite <- app_assoc; split; reflexivity.
Qed.

End HarnessFacts.

Section RegexFacts.

Import Harness.

Lemma matches_char_self p : matches_char p p = true.
Proof.
  unfold matches_char. destruct (p =? 46)%N eqn:E.
  - apply N.eqb_eq in E. subst. reflexivity.
  - apply N.eqb_refl.
Qed.

Lemma instance_of_self pattern : instance_of pattern pattern.
Proof.
  induction pattern; constructor; auto using matches_char_self.
Qed.

Lemma match_here_spec pattern text :
  match_here pattern text = true <->
  exists inst rest, text = (inst ++ rest)%list /\ instance_of pattern inst.
Proof.
  revert text. induction pattern as [|p pattern IH]; intros text; simpl.
  - split; [intros _|reflexivity].
    exists [], text. split; [reflexivity|constructor].
  - destruct text as [|x text].
    + split; [discriminate|].
      intros (inst & rest & E & H). inversion H; subst. discriminate.
    + rewrite Bool.andb_true_iff, IH. split.
      * intros (Hc & inst & rest & -> & H).
        exists (x :: inst), rest. split; [reflexivity|].
        constructor; assumption.
      * intros (inst & rest & E & H). inversion H; subst.
        injection E as <- ->. split; [assumption|]. eauto.
Qed.

(** X16. The search succeeds exactly when some stretch of the text is the
    pattern with each dot standing for a character other than a newline; so
    a text that contains the pattern word for word is always found, and the
    dots of the expected messages also accept other characters. *)
Theorem search_finds_instances (pattern text : Text) :
  (search pattern text = true <->
   exists before inst after,
     text = (before ++ inst ++ after)%list /\ instance_of pattern inst) /\
  (forall before after,
     search pattern (before ++ pattern ++ after)%list = true).
Proof.
  assert (Hiff : forall text,
            search pattern text = true <->
            exists before inst after,
              text = (before ++ inst ++ after)%list /\
              instance_of pattern inst).
  { clear text. induction text as [|x text IH].
    - simpl. rewrite Bool.orb_false_r, match_here_spec. split.
      + intros (inst & rest & E & H). exists [], inst, rest. auto.
      + intros (before & inst & after & E & H).
        destruct before; [|discriminate]. exists inst, after. auto.
    - simpl. rewrite Bool.orb_true_iff, IH, match_here_spec. split.
      + intros [(inst & rest & E & H)|(before & inst & after & -> & H)].
        * exists [], inst, rest. auto.
        * exists (x :: before), inst, after. auto.
      + intros (before & inst & after & E & H).
        destruct before as [|b before]; simpl in E.
        * left. exists inst, after. auto.
        * injection E as <- ->. right. exists before, inst, after. auto. }
  split; [apply Hiff|].
  intros before after. apply Hiff.
  exists before, pattern, after. split; [reflexivity|apply instance_of_self].
Qed.

(** Every pattern of the file is plain: the dot is its only special
    character. *)
Lemma patterns_are_plain :
  forallb (fun c => plain (snd c)) limitation_cases = true /\
  plain apply_disclaimer_message = true.
Proof. split; reflexivity. Qed.

End RegexFacts.

Section VerdictFacts.

Import Harness.

Variable S : System.

(** X17. The limitation test runs its command without [check], so a
    non-zero exit code does not raise.  It passes exactly when the command
    returns, stderr decodes, the exit code is 1, and both the expected message
    and the disclaimer are found in stderr.  Stderr is decoded before the exit
    code is looked at: bytes that do not decode end the test with
    UnicodeDecodeError whatever the exit code. *)
Theorem limitation_test_verdict (st : State S) (integ : Path S)
    (app expected : string) (command : list string)
    (Hinteg : parents S (this_file S) 2 = Some integ)
    (Happ : terraform_application (cls S st) = Some app)
    (Hcommand : command_list (cls S st) = Some command)
    (Hexpected : expected_error_message (cls S st) = Some expected) :
  let call :=
    subprocess_run command (application_directory S integ app) false
      run_command_timeout in
  let process := completes S (log S st) call in
  (snd (test_unsupported_limitations S st) = inr tt <->
   raises S (log S st) call = None /\
   returncode process = 1%Z /\
   exists text,
     stderr_decoded process = Some text /\
     search (codes expected) text = true /\
     search (codes apply_disclaimer_message) text = true) /\
  (raises S (log S st) call = None ->
   stderr_decoded process = None ->
   snd (test_unsupported_limitations S st) = inl UnicodeDecodeError) /\
  (forall e, raises S (log S st) call = Some e ->
     test_unsupported_limitations S st =
       (Build_State S (cls S st) (log S st ++ [call])%list, inl e)).
Proof.
  cbv zeta. unfold test_unsupported_limitations, attribute, assertRegex.
  generalize (codes apply_disclaimer_message). intros disclaimer.
  rewrite bind_run, Hcommand, bind_run.
  rewrite (run_command_in_directory S st integ app _ _ Hinteg Happ).
  unfold run. cbn [andb].
  destruct (raises S (log S st) _) as [e|].
  - split; [|split].
    + split; [discriminate|]. intros [H _]. discriminate.
    + discriminate.
    + intros e' [= ->]. reflexivity.
  - cbn. unfold assertEqual_returncode, assertRegex, raise.
    destruct (stderr_decoded _) as [text|]; cbn.
    + destruct (returncode _ =? 1)%Z eqn:Hrc; cbn.
      * apply Z.eqb_eq in Hrc. rewrite Hexpected.
        destruct (search (codes expected) text) eqn:H1; cbn.
        -- destruct (search disclaimer text) eqn:H2; cbn.
           ++ split; [|split; [discriminate|discriminate]].
              split; [intros _|reflexivity].
              split; [reflexivity|]. split; [exact Hrc|].
              exists text. auto.
           ++ split; [|split; [discriminate|discriminate]].
              split; [discriminate|].
              intros (_ & _ & t & [= <-] & _ & H). congruence.
        -- split; [|split; [discriminate|discriminate]].
           split; [discriminate|].
           intros (_ & _ & t & [= <-] & H & _). congruence.
      * apply Z.eqb_neq in Hrc.
        split; [|split; [discriminate|discriminate]].
        split; [discriminate|]. intros (_ & H & _). contradiction.
    + split; [|split; [reflexivity|discriminate]].
      split; [discriminate|]. intros (_ & _ & t & H & _). discriminate.
Qed.

End VerdictFacts.

(** ** The harness on the sample system *)

Section HarnessWitnesses.

Import Harness HarnessSamples.

Lemma cleanup_attempts_every_removal_witness :
  snd (_remove_generated_directories system ready) = inr tt.
Proof.
  rewrite (cleanup_attempts_every_removal system ready project eq_refl).
  reflexivity.
Defined.

Lemma failed_destroy_does_not_stop_teardown_witness :
  snd (Apply_tearDownClass system ready) = inr tt.
Proof.
  rewrite (proj1 (failed_destroy_does_not_stop_teardown system ready
                    ["repo"; "tests"; "integration"]
                    "terraform-api-simple-multiple-resources-limitation"
                    eq_refl eq_refl) eq_refl).
  reflexivity.
Defined.

Lemma backup_skipped_when_state_file_stays_witness :
  log system (fst (remove_state_files system ready)) =
    [os_remove (project ++ ["terraform.tfstate"])%list].
Proof.
  rewrite (backup_skipped_when_state_file_stays system ready project eq_refl).
  reflexivity.
Defined.

Lemma cleanup_waits_for_server_shutdown_witness :
  length (log system (fst (Base_tearDownClass system ready))) = 4%nat.
Proof.
  rewrite (proj2 (cleanup_waits_for_server_shutdown system ready project
                    eq_refl) eq_refl).
  reflexivity.
Defined.

Lemma commands_run_in_project_directory_witness :
  exists integ app,
    project_directory
      (cls system (fst (assign_directories system ready))) =
    Some (application_directory system integ app).
Proof.
  destruct (commands_run_in_project_directory system ready
              (fst (assign_directories system ready)) eq_refl)
    as (integ & app & _ & _ & _ & H & _).
  exists integ, app. exact H.
Defined.


Lemma limitation_test_verdict_witness :
  snd (test_unsupported_limitations system ready) = inr tt.
Proof.
  apply (proj1 (limitation_test_verdict system ready
                  ["repo"; "tests"; "integration"]
                  "terraform-api-simple-multiple-resources-limitation"
                  ("Error: AWS SAM CLI could not process a Terraform project that contains a source " ++
                   "resource that is linked to more than one destination resource.")
                  ["sam"; "local"; "start-api"]
                  eq_refl eq_refl eq_refl eq_refl)).
  split; [reflexivity|]. split; [reflexivity|].
  exists sample_stderr. repeat split; vm_compute; reflexivity.
Defined.

(** The port is printed in decimal. *)
Example str_int_port : str_int 3001 = "3001".
Proof. reflexivity. Qed.

End HarnessWitnesses.
